(** * r1.py: the change-validation, review-retry and commit pipeline

    A shallow embedding of the parts of [src/r1.py] that decide whether a
    proposed change-set reaches the disk:

    - the Python [str] methods the program relies on ([count], [replace],
      [split], [strip], [startswith], [in]);
    - [pathlib.Path] parsing and [Path.resolve] on a POSIX host;
    - the conversation history and the file helpers ([read_local_file],
      [create_file], [apply_diff_edit], [normalize_path],
      [get_file_content_from_history], [ensure_file_in_context]);
    - [validate_edits], [generate_review], [stream_openai_response] and the
      retry loop and final outcome handling of [main];
    - the commands and the rest of the session: [try_handle_add_command],
      [add_directory_to_conversation], [is_binary_file],
      [guess_files_in_message], [generate_plan],
      [trim_conversation_history], and the start-up and the loop of [main]
      over the lines the prompt returns.

    Text is a sequence of code points; the model keeps the code points
    U+0000..U+00FF, one [ascii] each, which is enough to tell the length of a
    text ([len]) from the number of bytes of its UTF-8 encoding.

    The two remote collaborators, [json.loads] and the pydantic constructors
    are outside the repository: they are fields of [Env].  The host file
    system is a finite map from canonical paths to file contents plus a set
    of directories; it has no symbolic links, and it never refuses to create
    a directory or to open a file for writing, and a path that names no
    file of the map is reported as missing.  Every file holds text, that
    is valid UTF-8, and the host resolves every path it is given (no path
    holds the character U+0000, which it would refuse).  Console output
    is not modelled. *)

From Stdlib Require Import Ascii String NArith Lia.
From stdpp Require Import gmap strings list pretty.

Abbreviation str := (list ascii).
Coercion list_ascii_of_string : string >-> list.

(** ** Python [str] methods *)

Module PyStr.

(** [c.isspace()] on the code points below 256. *)
Definition isspace (c : ascii) : bool :=
  let n := N_of_ascii c in
  ((9 <=? n) && (n <=? 13) || (28 <=? n) && (n <=? 32)
   || (n =? 133) || (n =? 160))%N.

(** [s.startswith(p)] *)
Fixpoint startswith (p s : str) : bool :=
  match p, s with
  | [], _ => true
  | _ :: _, [] => false
  | a :: p', b :: s' => Ascii.eqb a b && startswith p' s'
  end.

(** [s.endswith(p)] *)
Definition endswith (p s : str) : bool := startswith (rev p) (rev s).

(** The leftmost occurrence of [sub] in [c]: the text before it and the
    text after it ([c.partition(sub)] without the separator). *)
Fixpoint find (sub c : str) : option (str * str) :=
  if startswith sub c then Some ([], drop (length sub) c)
  else match c with
       | [] => None
       | a :: c' =>
           match find sub c' with
           | Some (pre, post) => Some (a :: pre, post)
           | None => None
           end
       end.

(** [sub in c] *)
Definition contains (sub c : str) : bool :=
  match find sub c with Some _ => true | None => false end.

(** The scan of [c.count(sub)] for a non-empty [sub]: [skip] characters
    are passed over after a match, so that matches never overlap. *)
Fixpoint count_from (sub : str) (skip : nat) (c : str) : nat :=
  match c with
  | [] => 0
  | _ :: c' =>
      match skip with
      | S k => count_from sub k c'
      | O => if startswith sub c
             then S (count_from sub (length sub - 1) c')
             else count_from sub 0 c'
      end
  end.

(** [c.count(sub)]: the number of non-overlapping occurrences, found
    left to right; the empty text is counted once between any two
    characters and at both ends. *)
Definition count (sub c : str) : nat :=
  match sub with
  | [] => S (length c)
  | _ :: _ => count_from sub 0 c
  end.

(** [c.replace(old, new, 1)] *)
Definition replace1 (old new c : str) : str :=
  match find old c with
  | Some (pre, post) => pre ++ new ++ post
  | None => c
  end.

(** [c.split(sep, 1)] for a non-empty [sep]. *)
Definition split1 (sep c : str) : list str :=
  match find sep c with
  | Some (pre, post) => [pre; post]
  | None => [c]
  end.

(** [sep.join(l)] *)
Fixpoint join (sep : str) (l : list str) : str :=
  match l with
  | [] => []
  | [x] => x
  | x :: l' => x ++ sep ++ join sep l'
  end.

Fixpoint lstrip_by (p : ascii → bool) (s : str) : str :=
  match s with
  | [] => []
  | a :: s' => if p a then lstrip_by p s' else s
  end.

Definition rstrip_by (p : ascii → bool) (s : str) : str :=
  rev (lstrip_by p (rev s)).

(** [s.strip()] *)
Definition strip (s : str) : str := rstrip_by isspace (lstrip_by isspace s).

(** [s.strip(chars)] *)
Definition strip_chars (chars s : str) : str :=
  let p := λ a, bool_decide (a ∈ chars) in
  rstrip_by p (lstrip_by p s).

(** [s.split(ch)] for a one-character separator. *)
Fixpoint split_char (ch : ascii) (s : str) : list str :=
  match s with
  | [] => [[]]
  | a :: s' =>
      if Ascii.eqb a ch then [] :: split_char ch s'
      else match split_char ch s' with
           | w :: ws => (a :: w) :: ws
           | [] => [[a]]
           end
  end.

(** [s.split()]: the maximal runs of non-space characters. *)
Fixpoint split_ws_go (cur : str) (s : str) : list str :=
  match s with
  | [] => match cur with [] => [] | _ => [rev cur] end
  | a :: s' =>
      if isspace a
      then match cur with
           | [] => split_ws_go [] s'
           | _ => rev cur :: split_ws_go [] s'
           end
      else split_ws_go (a :: cur) s'
  end.

Definition split_ws (s : str) : list str := split_ws_go [] s.

(** [s.lower()] on the code points below 256: the capital letters A to Z
    and, but for the multiplication sign, U+00C0 to U+00DE. *)
Definition lower_char (a : ascii) : ascii :=
  let n := N_of_ascii a in
  if ((65 <=? n) && (n <=? 90)
      || (192 <=? n) && (n <=? 222) && negb (n =? 215))%N
  then ascii_of_N (n + 32)
  else a.

Definition lower (s : str) : str := map lower_char s.

(** [len(s.encode("utf-8"))]: a code point below 128 takes one byte, the
    others of the model's range take two. *)
Definition utf8_len (s : str) : N :=
  foldr (λ a n, (if (N_of_ascii a <? 128)%N then 1 else 2) + n)%N 0%N s.

(** [len(s)] as a binary number. *)
Definition len (s : str) : N := N.of_nat (length s).

End PyStr.

(** ** [pathlib] on a POSIX host *)

Module PyPath.
Import PyStr.

(** A parsed [PurePosixPath]: the root (empty, one slash or two) and the
    segments after it. *)
Record PurePath := { root : str; segs : list str }.

Definition keep_seg (s : str) : bool :=
  negb (bool_decide (s = []) || bool_decide (s = ".")).

(** [posixpath.splitroot]: exactly two leading slashes are kept. *)
Definition splitroot (p : str) : str :=
  match p with
  | "/"%char :: "/"%char :: "/"%char :: _ => "/"
  | "/"%char :: "/"%char :: _ => "//"
  | "/"%char :: _ => "/"
  | _ => []
  end.

(** [Path(p)] *)
Definition Path (p : str) : PurePath :=
  {| root := splitroot p;
     segs := List.filter keep_seg (split_char "/" p) |}.

(** [path.parts] *)
Definition parts (p : PurePath) : list str :=
  match root p with
  | [] => segs p
  | r => r :: segs p
  end.

(** [str(path)] *)
Definition to_str (p : PurePath) : str :=
  match root p, segs p with
  | [], [] => "."
  | r, l => r ++ join "/" l
  end.

(** [path.parent] *)
Definition parent (p : PurePath) : PurePath :=
  {| root := root p; segs := removelast (segs p) |}.

(** One step of [os.path.realpath] without symbolic links; the stack of
    segments is kept innermost first. *)
Definition walk_step (stack : list str) (name : str) : list str :=
  if bool_decide (name = []) || bool_decide (name = ".") then stack
  else if bool_decide (name = "..") then tail stack
  else name :: stack.

(** [path.resolve()] in the working directory [cwd] (its segments,
    outermost first). *)
Definition resolve (cwd : list str) (p : PurePath) : PurePath :=
  {| root := "/";
     segs := rev (fold_left walk_step (segs p)
                    (match root p with [] => rev cwd | _ => [] end)) |}.

(** A segment of a canonical path. *)
Definition good_seg (s : str) : bool :=
  negb (bool_decide (s = []) || bool_decide (s = ".")
        || bool_decide (s = "..") || bool_decide ("/"%char ∈ s)).

(** The directories [mkdir(parents=True)] makes sure of: the directory
    itself and every ancestor of it. *)
Definition with_ancestors (p : PurePath) : list PurePath :=
  map (λ l, {| root := root p; segs := l |})
      (map (λ n, take n (segs p)) (seq 0 (S (length (segs p))))).

End PyPath.

(** ** Exceptions, messages, proposed changes *)

Inductive exn_kind :=
| ValueError | FileNotFoundError | IndexError | OtherException
| UnicodeDecodeError   (* a [ValueError] *)
| OSError              (* an [OSError] other than [FileNotFoundError] *)
| MarkupError          (* of the [rich] library *)
| UnboundLocalError.

(** A raised exception: its class and [str(e)]. *)
Record exn := { exn_class : exn_kind; exn_msg : str }.

Inductive result (A : Type) :=
| Ok (a : A)
| Raise (e : exn).
Arguments Ok {A} a.
Arguments Raise {A} e.

(** [except OSError] *)
Definition is_OSError (e : exn) : bool :=
  match exn_class e with FileNotFoundError | OSError => true | _ => false end.

(** [except ValueError] *)
Definition is_ValueError (e : exn) : bool :=
  match exn_class e with
  | ValueError | UnicodeDecodeError => true
  | _ => false
  end.

Definition is_FileNotFoundError (e : exn) : bool :=
  match exn_class e with FileNotFoundError => true | _ => false end.

(** An entry of [conversation_history]. *)
Record Message := { role : str; content : str }.

Record FileToCreate := { create_path : str; create_content : str }.

Record FileToEdit :=
  { edit_path : str; original_snippet : str; new_snippet : str }.

Record AssistantResponse := {
  assistant_reply : option str;
  files_to_create : option (list FileToCreate);
  files_to_edit : option (list FileToEdit);
  analysis : option str;
  explanation : option str;
  output : option str
}.

(** [AssistantResponse(assistant_reply=.., files_to_create=.., files_to_edit=..)] *)
Definition reply_response (reply : str) (creates : option (list FileToCreate))
    (edits : option (list FileToEdit)) : AssistantResponse :=
  {| assistant_reply := Some reply; files_to_create := creates;
     files_to_edit := edits; analysis := None; explanation := None;
     output := None |}.

(** [AssistantResponse(analysis=.., explanation=.., output=..)] *)
Definition verdict_response (a e o : option str) : AssistantResponse :=
  {| assistant_reply := None; files_to_create := None; files_to_edit := None;
     analysis := a; explanation := e; output := o |}.

(** What a loop guarded by [if l:] goes through: nothing for [None] and
    for the empty list. *)
Definition items {A} (l : option (list A)) : list A := default [] l.

(** [str(x)] of an optional text: [None] prints as its name. *)
Definition str_opt (x : option str) : str := default ("None" : str) x.

(** ** The world: history, disk, and what has happened so far *)

Record Disk := { files : gmap str str; dirs : gset str }.

(** The observable actions of a run, oldest first.  The program keeps no
    such log; it is what the statements about remote calls and writes are
    phrased over. *)
Inductive Event :=
| EvGenerate                       (* a generation request was sent *)
| EvLocalVerdict                   (* validate_edits answered the review *)
| EvRemoteReview                   (* a review request was sent *)
| EvVerdict (o : option str)       (* generate_review returned this output *)
| EvWrite (key text : str).        (* a file was written *)

Record State := {
  conversation_history : list Message;
  disk : Disk;
  trace : list Event
}.

#[warnings="-register-all"]
Inductive json :=
| JNull
| JBool (b : bool)
| JNumber (digits : str)
| JString (s : str)
| JArray (l : list json)
| JObject (o : list (str * json)).

Inductive json_result :=
| JSONDecodeError (msg : str)
| Parsed (j : json).

(** A piece of a streamed answer. *)
Record Chunk := { reasoning_content : option str; delta_content : option str }.

(** One entry of [review_context]. *)
Inductive Change :=
| new_file (path text : str)
| file_edit (path original new : str).

(** What the review request is built from (lines 538-594). *)
Record ReviewRequest := {
  file_contexts : list str;
  plan_context : list str;
  total_new_files : nat;
  total_edits : nat;
  changes : list Change
}.

(** Everything outside the repository. *)
Record Env := {
  (** the working directory, as segments, and the fact that the host
      reports it in canonical form *)
  cwd : list str;
  cwd_canonical : forallb PyPath.good_seg cwd = true;
  (** [client.chat.completions.create] for the generation model: the
      chunks of the stream, or the exception that ends the call *)
  generation_stream : list Event → list Message → result (list Chunk);
  (** the same for the review model *)
  review_stream : list Event → ReviewRequest → result (list Chunk);
  (** [json.loads] *)
  json_loads : str → json_result;
  (** lines 800-812: the [AssistantResponse] built from the parsed answer *)
  response_of_json : json → result AssistantResponse;
  (** lines 635-639: the [AssistantResponse] built from the parsed review *)
  review_of_json : json → result AssistantResponse;
  (** line 553: the plan text of a parsed plan message *)
  plan_of_json : json → result str
}.

(** ** A state-and-exception monad *)

Definition M (A : Type) : Type := State → result A * State.

Definition ret {A} (a : A) : M A := λ st, (Ok a, st).

Definition raise {A} (e : exn) : M A := λ st, (Raise e, st).

Definition bind {A B} (c : M A) (k : A → M B) : M B := λ st,
  match c st with
  | (Ok a, st') => k a st'
  | (Raise e, st') => (Raise e, st')
  end.

Notation "'let*' x ':=' c 'in' k" := (bind c (λ x, k))
  (at level 10, x name, c at level 100, k at level 200).
Notation "c ';;' k" := (bind c (λ _, k))
  (at level 100, k at level 200, right associativity).

(** [try: c  except <handles>: h] *)
Definition try_except {A} (c : M A) (handles : exn → bool) (h : exn → M A)
    : M A := λ st,
  match c st with
  | (Raise e, st') => if handles e then h e st' else (Raise e, st')
  | ok => ok
  end.

(** [try: c  finally: f]: [f] runs whatever [c] did, and what [c] returned
    or raised stands unless [f] raises itself. *)
Definition try_finally {A} (c : M A) (f : M unit) : M A := λ st,
  match c st with
  | (r, st') =>
      match f st' with
      | (Ok _, st'') => (r, st'')
      | (Raise e, st'') => (Raise e, st'')
      end
  end.

(** A pure computation that may raise. *)
Definition lift {A} (r : result A) : M A := λ st, (r, st).

(** [for x in l: body(x)] *)
Fixpoint for_each {A} (l : list A) (body : A → M unit) : M unit :=
  match l with
  | [] => ret tt
  | x :: l' => body x ;; for_each l' body
  end.

Definition get_history : M (list Message) :=
  λ st, (Ok (conversation_history st), st).

Definition set_history (h : list Message) : M unit := λ st,
  (Ok tt, {| conversation_history := h; disk := disk st; trace := trace st |}).

(** [conversation_history.append(m)] *)
Definition append_history (m : Message) : M unit := λ st,
  (Ok tt, {| conversation_history := conversation_history st ++ [m];
             disk := disk st; trace := trace st |}).

Definition emit (ev : Event) : M unit := λ st,
  (Ok tt, {| conversation_history := conversation_history st;
             disk := disk st; trace := trace st ++ [ev] |}).

Definition system_message (text : str) : Message :=
  {| role := "system"; content := text |}.

Definition is_system (m : Message) : bool := bool_decide (role m = "system").

Definition get_trace : M (list Event) := λ st, (Ok (trace st), st).

(** The line feed and the double quote, which a literal cannot hold. *)
Definition NL : str := ["010"%char].
Definition DQ : str := ["034"%char].

(** ** The program *)

Section Program.
Context (E : Env).
Import PyStr PyPath.

(** *** 4. Helper functions *)

(** The canonical path under which the host finds [file_path]. *)
Definition fs_key (file_path : PurePath) : str :=
  to_str (resolve (cwd E) file_path).

Definition read_local_file (file_path : str) : M str := λ st,
  match files (disk st) !! fs_key (Path file_path) with
  | Some text => (Ok text, st)
  | None =>
      (Raise {| exn_class := FileNotFoundError;
                exn_msg := "[Errno 2] No such file or directory: '"
                           ++ file_path ++ "'" |}, st)
  end.

Definition normalize_path (path_str : str) : result str :=
  let path := resolve (cwd E) (Path path_str) in
  if bool_decide (("..":str) ∈ parts path)
  then Raise {| exn_class := ValueError;
                exn_msg := "Invalid path: " ++ path_str
                           ++ " contains parent directory references" |}
  else Ok (to_str path).

(** [dir.mkdir(parents=True, exist_ok=True)]: afterwards [dir] and every
    prefix of it is a directory. *)
Definition mkdir_parents (dir : PurePath) : M unit := λ st,
  (Ok tt,
   {| conversation_history := conversation_history st;
      disk := {| files := files (disk st);
                 dirs := dirs (disk st)
                         ∪ list_to_set (map fs_key (with_ancestors dir)) |};
      trace := trace st |}).

(** [with open(file_path, "w") as f: f.write(text)] *)
Definition write_file (file_path : PurePath) (text : str) : M unit := λ st,
  (Ok tt,
   {| conversation_history := conversation_history st;
      disk := {| files := <[fs_key file_path := text]> (files (disk st));
                 dirs := dirs (disk st) |};
      trace := trace st ++ [EvWrite (fs_key file_path) text] |}).

Definition snapshot_message (normalized_path text : str) : Message :=
  system_message
    ("Content of file '" ++ normalized_path ++ "':" ++ NL ++ NL ++ text).

Definition create_file (path text : str) : M unit :=
  let file_path := Path path in
  if existsb (startswith "~") (parts file_path)
  then raise {| exn_class := ValueError;
                exn_msg := "Home directory references not allowed" |}
  else
    let* normalized_path := lift (normalize_path (to_str file_path)) in
    if (5000000 <? len text)%N
    then raise {| exn_class := ValueError;
                  exn_msg := "File content exceeds 5MB size limit" |}
    else
      mkdir_parents (parent file_path) ;;
      write_file file_path text ;;
      append_history
        (system_message ("File operation: Created/updated file at '"
                         ++ to_str file_path ++ "'")) ;;
      let* normalized_path := lift (normalize_path (to_str file_path)) in
      append_history (snapshot_message normalized_path text).

(** The [try] block of [apply_diff_edit]. *)
Definition apply_diff_edit_body (path original new : str) : M unit :=
  let* text := read_local_file path in
  let occurrences := count original text in
  if occurrences =? 0
  then raise {| exn_class := ValueError;
                exn_msg := "Original snippet not found" |}
  else if 1 <? occurrences
  then raise {| exn_class := ValueError;
                exn_msg := "Ambiguous edit: " ++ pretty occurrences
                           ++ " matches" |}
  else
    let updated_content := replace1 original new text in
    create_file path updated_content ;;
    append_history
      (system_message ("File operation: Applied diff edit to '"
                       ++ path ++ "'")).

Definition apply_diff_edit (path original new : str) : M unit :=
  try_except (apply_diff_edit_body path original new)
    (λ e, is_FileNotFoundError e || is_ValueError e)
    (λ _, ret tt).

(** The loop of [get_file_content_from_history]. *)
Fixpoint first_snapshot (file_marker : str) (history : list Message)
    : option str :=
  match history with
  | [] => None
  | msg :: rest =>
      if is_system msg && contains file_marker (content msg)
      then match split1 (file_marker ++ ":" ++ NL ++ NL) (content msg) with
           | _ :: text :: _ => Some text
           | _ => first_snapshot file_marker rest
           end
      else first_snapshot file_marker rest
  end.

Definition file_marker_of (normalized_path : str) : str :=
  "Content of file '" ++ normalized_path ++ "'".

Definition get_file_content_from_history (file_path : str)
    (history : list Message) : result (option str) :=
  match normalize_path file_path with
  | Raise e => Raise e
  | Ok normalized_path =>
      Ok (first_snapshot (file_marker_of normalized_path) history)
  end.

Definition ensure_file_in_context (file_path : str) : M bool :=
  try_except
    (let* normalized_path := lift (normalize_path file_path) in
     let* history := get_history in
     let* existing_content :=
       lift (get_file_content_from_history normalized_path history) in
     match existing_content with
     | Some _ => ret true
     | None =>
         let* text := read_local_file normalized_path in
         append_history (snapshot_message normalized_path text) ;;
         ret true
     end)
    is_OSError
    (λ _, ret false).

Definition excluded_files : list str :=
  [".git" : str; "__pycache__" : str; "node_modules" : str; ".env" : str;
   ".venv" : str; "venv" : str; ".DS_Store" : str; "Thumbs.db" : str].

Definition excluded_extensions : list str :=
  [".pyc" : str; ".pyo" : str; ".pyd" : str; ".exe" : str; ".dll" : str;
   ".so" : str; ".zip" : str; ".tar" : str; ".gz" : str; ".jpg" : str;
   ".png" : str; ".pdf" : str].

(** [Path(name).suffix]: from the last dot on, unless that dot is the first
    or the last character. *)
Definition suffix (name : str) : str :=
  match find "." (rev name) with
  | Some ((_ :: _) as ext, _ :: _) => "." ++ rev ext
  | _ => []
  end.

(** Whether a zero byte is among the first [budget] bytes of the UTF-8
    encoding of [text] (only the character U+0000 encodes to one). *)
Fixpoint nul_within (budget : N) (text : str) : bool :=
  match text with
  | [] => false
  | a :: text' =>
      if (budget =? 0)%N then false
      else if (N_of_ascii a =? 0)%N then true
      else nul_within (budget - (if (N_of_ascii a <? 128)%N then 1 else 2))
                      text'
  end.

(** [is_binary_file] on a file that holds [text]. *)
Definition is_binary_file (text : str) : bool := nul_within 1024 text.

(** The files [os.walk] reaches below [directory_path], each with its name
    and its text: those with no directory in between that starts with a dot
    or is excluded.  The order in which the host lists them is not
    specified; the model takes them in the order of the map. *)
Definition walked_files (directory_path : str) (d : Disk)
    : list (str * str * str) :=
  let below := match directory_path with
               | ["/"%char] => directory_path
               | _ => directory_path ++ "/"
               end in
  flat_map
    (λ entry : str * str,
       if startswith below entry.1
       then let names := split_char "/" (drop (length below) entry.1) in
            if forallb (λ dir, negb (startswith "." dir)
                               && negb (bool_decide (dir ∈ excluded_files)))
                       (removelast names)
            then [(entry.1, List.last names [], entry.2)]
            else []
       else [])
    (map_to_list (files d)).

Definition add_directory_to_conversation (directory_path : str) : M unit :=
  λ st,
  for_each (walked_files directory_path (disk st))
    (λ entry,
       let '(full_path, file, text) := entry in
       if startswith "." file
          || bool_decide (file ∈ excluded_files)
          || bool_decide (lower (suffix file) ∈ excluded_extensions)
       then ret tt
       else if (5000000 <? utf8_len text)%N then ret tt
       else if is_binary_file text then ret tt
       else let* _ := ensure_file_in_context full_path in ret tt)
    st.

(** [os.path.isdir(path)] for a canonical path. *)
Definition isdir (normalized_path : str) : M bool :=
  λ st, (Ok (bool_decide (normalized_path ∈ dirs (disk st))), st).

Definition try_handle_add_command (user_input : str) : M bool :=
  let prefix : str := "/add " in
  if startswith prefix (lower (strip user_input))
  then
    let path_to_add := strip (drop (length prefix) user_input) in
    try_except
      (let* normalized_path := lift (normalize_path path_to_add) in
       let* is_directory := isdir normalized_path in
       if is_directory
       then add_directory_to_conversation normalized_path
       else
         let* text := read_local_file normalized_path in
         append_history (snapshot_message normalized_path text))
      is_OSError
      (λ _, ret tt) ;;
    ret true
  else ret false.

(** *** 6. Generation and review *)

Definition recognized_extensions : list str :=
  [".css" : str; ".html" : str; ".js" : str; ".py" : str; ".json" : str;
   ".md" : str; ".txt" : str; ".yml" : str; ".yaml" : str; ".ts" : str;
   ".tsx" : str].

Definition guess_files_in_message (user_message : str) : list str :=
  flat_map
    (λ word,
       if existsb (λ ext, contains ext word) recognized_extensions
          || contains "/" word
       then match normalize_path (strip_chars ("'," ++ DQ) word) with
            | Ok normalized_path => [normalized_path]
            | Raise _ => []
            end
       else [])
    (split_ws user_message).

(** The body of the loop of [validate_edits]: the issue an edit adds. *)
Definition edit_issue (history : list Message) (edit : FileToEdit)
    : result (option str) :=
  match get_file_content_from_history (edit_path edit) history with
  | Raise e => Raise e
  | Ok None =>
      Ok (Some ("File '" ++ edit_path edit ++ "' not found in context."))
  | Ok (Some text) =>
      let count := count (original_snippet edit) text in
      if count =? 0
      then Ok (Some ("Original snippet not found in '"
                     ++ edit_path edit ++ "'."))
      else if 1 <? count
      then Ok (Some ("Multiple occurrences (" ++ pretty count
                     ++ ") of snippet in '" ++ edit_path edit ++ "'."))
      else Ok None
  end.

Fixpoint collect_issues (history : list Message) (edits : list FileToEdit)
    : result (list str) :=
  match edits with
  | [] => Ok []
  | edit :: rest =>
      match edit_issue history edit with
      | Raise e => Raise e
      | Ok issue =>
          match collect_issues history rest with
          | Raise e => Raise e
          | Ok issues =>
              Ok (match issue with Some i => i :: issues | None => issues end)
          end
      end
  end.

Definition validate_edits (response_data : AssistantResponse)
    (history : list Message) : result (option AssistantResponse) :=
  match collect_issues history (items (files_to_edit response_data)) with
  | Raise e => Raise e
  | Ok [] => Ok None
  | Ok issues =>
      Ok (Some (verdict_response
                  (Some ("Invalid edits detected:" ++ NL ++ "- "
                         ++ join (NL ++ "- ") issues))
                  (Some ("Edits cannot be applied due to missing or ambiguous snippets." : str))
                  (Some ("NEED_CHANGES" : str))))
  end.
(** The change list of the review request (lines 557-574). *)
Definition review_context (response_data : AssistantResponse) : list Change :=
  map (λ file, new_file (create_path file) (create_content file))
      (items (files_to_create response_data))
  ++ map (λ edit, file_edit (edit_path edit) (original_snippet edit)
                            (new_snippet edit))
         (items (files_to_edit response_data)).

Definition is_file_snapshot (msg : Message) : bool :=
  is_system msg && contains "Content of file '" (content msg).

(** The loop over plan messages (lines 548-555). *)
Fixpoint collect_plans (history : list Message) : result (list str) :=
  match history with
  | [] => Ok []
  | msg :: rest =>
      if is_system msg
         && contains (DQ ++ "Plan Summary" ++ DQ) (content msg)
      then match json_loads E (content msg) with
           | JSONDecodeError _ => collect_plans rest
           | Parsed plan_data =>
               match plan_of_json E plan_data with
               | Raise e => Raise e
               | Ok plan =>
                   match collect_plans rest with
                   | Raise e => Raise e
                   | Ok plans =>
                       Ok (("Implementation Plan:" ++ NL ++ plan) :: plans)
                   end
               end
           end
      else collect_plans rest
  end.

Definition build_review_request (response_data : AssistantResponse)
    (history : list Message) : result ReviewRequest :=
  match collect_plans history with
  | Raise e => Raise e
  | Ok plans =>
      Ok {| file_contexts :=
              map content (List.filter is_file_snapshot history);
            plan_context := plans;
            total_new_files := length (items (files_to_create response_data));
            total_edits := length (items (files_to_edit response_data));
            changes := review_context response_data |}
  end.

Definition truthy (x : option str) : bool :=
  match x with Some (_ :: _) => true | _ => false end.

(** The text a review stream adds up to (lines 622-628). *)
Definition review_content_of (chunks : list Chunk) : str :=
  concat (map (λ chunk, default [] (delta_content chunk)) chunks).

Definition valid_outputs : list str :=
  ["CORRECT" : str; "INCORRECT" : str; "UNECESSARY" : str;
   "NEED_CHANGES" : str].

Definition valid_output (o : option str) : bool :=
  match o with
  | Some (c :: s) => bool_decide (c :: s ∈ valid_outputs)
  | _ => false
  end.

(** The outer [try] block of [generate_review] (lines 537-656). *)
Definition review_remotely (response_data : AssistantResponse)
    : M AssistantResponse :=
  let* history := get_history in
  let* request := lift (build_review_request response_data history) in
  let* seen := get_trace in
  emit EvRemoteReview ;;
  let* chunks := lift (review_stream E seen request) in
  let review_content := review_content_of chunks in
  match json_loads E review_content with
  | JSONDecodeError msg =>
      ret (verdict_response (Some ("Failed to parse review response" : str))
                            (Some msg) (Some ("INCORRECT" : str)))
  | Parsed parsed =>
      let* review_result := lift (review_of_json E parsed) in
      if valid_output (output review_result)
      then ret review_result
      else raise {| exn_class := ValueError;
                    exn_msg := "Invalid review status: "
                               ++ str_opt (output review_result) |}
  end.

Definition generate_review (response_data : AssistantResponse)
    : M AssistantResponse :=
  let* history := get_history in
  let* validation_result := lift (validate_edits response_data history) in
  match validation_result with
  | Some verdict =>
      emit EvLocalVerdict ;;
      emit (EvVerdict (output verdict)) ;;
      ret verdict
  | None =>
      let* verdict :=
        try_except (review_remotely response_data)
          (λ _, true)
          (λ e, ret (verdict_response
                       (Some ("Review process failed" : str))
                       (Some ("Review generation failed: " ++ exn_msg e))
                       (Some ("INCORRECT" : str)))) in
      emit (EvVerdict (output verdict)) ;;
      ret verdict
  end.

(** The text a generation stream adds up to (lines 760-777). *)
Definition final_content_of (chunks : list Chunk) : str :=
  concat (map (λ chunk,
                 if truthy (reasoning_content chunk) then []
                 else default [] (delta_content chunk))
              chunks).

(** Lines 791-795: the text handed to [json.loads]. *)
Definition lenient_json_text (final_content : str) : str :=
  let final_content := strip final_content in
  let final_content :=
    if startswith "{" final_content then final_content
    else "{" ++ final_content in
  if endswith "}" final_content then final_content
  else final_content ++ "}".

Definition parse_error_response (msg : str) : AssistantResponse :=
  reply_response ("Failed to parse JSON response from assistant: " ++ msg)
                 (Some []) (Some []).

(** The inner [try] block of [stream_openai_response] (lines 789-822). *)
Definition parse_final_content (final_content : str)
    : result AssistantResponse :=
  match json_loads E (lenient_json_text final_content) with
  | JSONDecodeError msg => Ok (parse_error_response msg)
  | Parsed parsed_response => response_of_json E parsed_response
  end.

Definition no_response : AssistantResponse :=
  reply_response "No response generated" (Some []) (Some []).

Definition api_error_response (e : exn) : AssistantResponse :=
  reply_response ("DeepSeek API error: " ++ exn_msg e) (Some []) None.

(** Lines 781-830: from the accumulated text to the response. *)
Definition response_of_content (final_content : str) : AssistantResponse :=
  if bool_decide (strip final_content = [])
  then no_response
  else match parse_final_content final_content with
       | Ok response => response
       | Raise e => api_error_response e
       end.

(** The outer [try] block of [stream_openai_response] (lines 750-830). *)
Definition response_of_stream (stream : result (list Chunk))
    : AssistantResponse :=
  match stream with
  | Raise e => api_error_response e
  | Ok chunks => response_of_content (final_content_of chunks)
  end.

Definition is_user_or_assistant (msg : Message) : bool :=
  bool_decide (role msg = "user") || bool_decide (role msg = "assistant").

(** Lines 722-739: the history that is kept, with the new user message. *)
Definition cleaned_history (first : Message) (rest : list Message)
    (user_message : str) : list Message :=
  let system_msgs := [first] in
  let file_context := List.filter is_file_snapshot rest in
  let user_assistant_pairs :=
    List.filter (λ msg, negb (is_file_snapshot msg)
                        && is_user_or_assistant msg) rest in
  let user_assistant_pairs :=
    if Nat.odd (length user_assistant_pairs)
    then removelast user_assistant_pairs
    else user_assistant_pairs in
  system_msgs ++ file_context ++ user_assistant_pairs
  ++ [{| role := "user"; content := user_message |}].

Definition stream_openai_response (user_message : str)
    : M AssistantResponse :=
  let* history := get_history in
  match history with
  | [] => raise {| exn_class := IndexError;
                   exn_msg := "list index out of range" |}
  | first :: rest =>
      set_history (cleaned_history first rest user_message) ;;
      for_each (guess_files_in_message user_message)
               (λ path, let* _ := ensure_file_in_context path in ret tt) ;;
      let* seen := get_trace in
      let* messages := get_history in
      emit EvGenerate ;;
      ret (response_of_stream (generation_stream E seen messages))
  end.

(** [conversation_history[0] = m] *)
Definition set_first (m : Message) : M unit :=
  let* history := get_history in
  match history with
  | [] => raise {| exn_class := IndexError;
                   exn_msg := "list assignment index out of range" |}
  | _ :: rest => set_history (m :: rest)
  end.

(** Lines 59-85.  Two of the lines of the literal hold the escape for a
    line feed, so that they are cut in two and [dedent] finds no common
    margin to remove. *)
Definition planning_system_PROMPT : str :=
  PyStr.join NL
    ["    You are an elite software engineer tasked with creating detailed implementation plans." : str;
     "    Your job is to analyze user requirements and create a step-by-step plan that will guide the implementation." : str;
     [];
     "    Output Format:" : str;
     "    Respond STRICTLY in this JSON format:" : str;
     "    {" : str;
     "      " ++ DQ ++ "assistant_reply" ++ DQ ++ ": " ++ DQ ++ "text string with plan using markdown formatting" ++ DQ;
     "    }" : str;
     [];
     "    Planning Requirements:" : str;
     "    1. Break down the problem into clear implementation steps" : str;
     "    2. Identify all affected files and components" : str;
     "    3. Highlight potential edge cases and error conditions" : str;
     "    4. Consider security implications and performance impacts" : str;
     "    5. Outline validation and testing approaches" : str;
     "    6. Suggest appropriate architectural patterns" : str;
     "    7. Evaluate alternative solutions if applicable" : str;
     "    8. Define success criteria for implementation" : str;
     [];
     "    Critical Instructions:" : str;
     "    - assistant_reply MUST be a plain text string" : str;
     "    - Use '" : str;
     "' for new lines, NOT actual newlines in JSON" : str;
     "    - NEVER include other fields like files_to_create/edit" : str;
     "    - Escape all double quotes in text content" : str;
     "    - Example valid response: {" ++ DQ ++ "assistant_reply" ++ DQ ++ ": " ++ DQ ++ "1. First step";
     "2. Second step" ++ DQ ++ "}";
     []].

(** The warning sign U+26A0 that opens the reply of a failed planning
    phase.  It lies outside the code points the texts of this development
    are made of, and stands for itself. *)
Context (WARNING_SIGN : str).

Definition generate_plan (user_message : str) : M AssistantResponse :=
  let* original_history := get_history in
  let original_system := head original_history in
  try_finally
    (try_except
       (let planning_history :=
          system_message planning_system_PROMPT
          :: List.filter is_file_snapshot original_history in
        set_history planning_history ;;
        stream_openai_response user_message)
       (λ _, true)
       (λ e, ret {| assistant_reply :=
                      Some (WARNING_SIGN ++ " Planning Error: " ++ exn_msg e);
                    files_to_create := None; files_to_edit := None;
                    analysis := None; explanation := None; output := None |}))
    (set_history original_history ;;
     match original_system with
     | Some m => set_first m
     | None => ret tt
     end).

Definition trim_conversation_history : M unit :=
  let max_pairs := 10 in
  let* history := get_history in
  let system_msgs := List.filter is_system history in
  let other_msgs := List.filter (λ msg, negb (is_system msg)) history in
  let other_msgs :=
    if max_pairs * 2 <? length other_msgs
    then drop (length other_msgs - max_pairs * 2) other_msgs
    else other_msgs in
  set_history (system_msgs ++ other_msgs).

(** *** 7. The turn of the main loop *)

Definition max_attempts : nat := 3.

Definition feedback_content (attempt : nat)
    (review_response : AssistantResponse) : str :=
  "Code Review Feedback (Attempt " ++ pretty attempt ++ "):" ++ NL
  ++ "Analysis: " ++ str_opt (analysis review_response) ++ NL
  ++ "Explanation: " ++ str_opt (explanation review_response).

Definition needs_changes (review_response : AssistantResponse) : bool :=
  bool_decide (output review_response = Some ("NEED_CHANGES" : str)).

Definition is_correct (review_response : AssistantResponse) : bool :=
  bool_decide (output review_response = Some ("CORRECT" : str)).

(** The [while] loop of lines 950-964; [remaining] is
    [max_attempts - attempt], so that [attempt < max_attempts] reads
    [remaining] is not zero. *)
Fixpoint review_retry (remaining : nat) (user_input : str) (attempt : nat)
    (response_data review_response : AssistantResponse)
    : M (AssistantResponse * AssistantResponse * nat) :=
  match remaining with
  | O => ret (response_data, review_response, attempt)
  | S remaining' =>
      if needs_changes review_response
      then
        append_history
          (system_message (feedback_content attempt review_response)) ;;
        let* response_data := stream_openai_response user_input in
        let* review_response := generate_review response_data in
        review_retry remaining' user_input (S attempt)
                     response_data review_response
      else ret (response_data, review_response, attempt)
  end.

(** Lines 914-964: generation, review and the retries. *)
Definition review_phase (user_input : str)
    : M (AssistantResponse * AssistantResponse * nat) :=
  let* response_data := stream_openai_response user_input in
  let* review_response := generate_review response_data in
  review_retry (max_attempts - 1) user_input 1 response_data review_response.

(** Lines 968-973: the two loops that apply a change-set. *)
Definition apply_changes (response_data : AssistantResponse) : M unit :=
  for_each (items (files_to_create response_data))
           (λ file_info,
              create_file (create_path file_info) (create_content file_info)) ;;
  for_each (items (files_to_edit response_data))
           (λ edit_info,
              apply_diff_edit (edit_path edit_info)
                              (original_snippet edit_info)
                              (new_snippet edit_info)).

(** One user turn that is neither a command nor an exit (lines 894-982). *)
Definition process_turn (user_input : str) : M unit :=
  let* outcome := review_phase user_input in
  let '(response_data, review_response, attempt) := outcome in
  if is_correct review_response
  then apply_changes response_data
  else ret tt.

(** Lines 863-875: the technical stack documentation is read at start-up;
    whatever goes wrong is reported and the session goes on. *)
Definition load_tech_stack : M unit :=
  let tech_stack_path : str := "tech_stack.md" in
  try_except
    (let* text := read_local_file tech_stack_path in
     append_history
       (system_message ("Content of file 'tech_stack.md':" ++ NL ++ NL
                        ++ text)))
    (λ _, true)
    (λ _, ret tt).

(** The loop of lines 877-982 over the lines the prompt returns, one
    after the other; when there is none left the prompt raises [EOFError]
    and the loop ends. *)
Fixpoint main_loop (inputs : list str) : M unit :=
  match inputs with
  | [] => ret tt
  | line :: inputs' =>
      let user_input := strip line in
      if bool_decide (user_input = []) then main_loop inputs'
      else if bool_decide (lower user_input ∈ [("exit" : str); ("quit" : str)])
      then ret tt
      else
        let* handled := try_handle_add_command user_input in
        if handled then main_loop inputs'
        else process_turn user_input ;; main_loop inputs'
  end.

Definition main (inputs : list str) : M unit :=
  load_tech_stack ;; main_loop inputs.

End Program.

(** ** The program on a host that can refuse

    [Program] describes the functions on a host that resolves every path,
    opens every file it has and prints every text.  [OnHost] describes the
    functions between a proposed change-set and the disk once more, with
    what the host and the console can do instead: [Path.resolve] raises
    [ValueError] on a path that holds U+0000; a file opened for reading
    has its line ends translated, and the host can refuse to open or to
    decode it; it can refuse to make a directory or to open a file for
    writing; and [console.print] of the [rich] library raises
    [MarkupError] on a text whose markup tags do not match, wherever the
    text comes from.  A file that has been opened for writing takes the
    whole text. *)

(** What [open(path, "r")] makes of the text of a file: universal
    newlines, a carriage return with or without a line feed after it is
    read as one line feed. *)
Fixpoint universal_newlines (stored : str) : str :=
  match stored with
  | [] => []
  | a :: rest =>
      if Ascii.eqb a "013"
      then match rest with
           | b :: rest' =>
               if Ascii.eqb b "010" then "010"%char :: universal_newlines rest'
               else "010"%char :: universal_newlines rest
           | [] => ["010"%char]
           end
      else a :: universal_newlines rest
  end.

Record Host := {
  (** [rich]: the message of the [MarkupError] that [console.print] raises
      at this line of [r1.py] when the values formatted into its text are
      these, if it raises *)
  markup_error : nat → list str → option str;
  (** the exception with which the host refuses to open this path for
      reading or to decode what the file holds, if it does, other than for
      a file that is missing or a directory: a part of the path that is no
      directory, a permission that is missing, bytes that are no UTF-8 *)
  read_refusal : Disk → str → option exn;
  (** the same for [mkdir(parents=True, exist_ok=True)] *)
  mkdir_refusal : Disk → str → option exn;
  (** the same for [open(path, "w")], other than for a directory *)
  write_refusal : Disk → str → option exn
}.

Module OnHost.
Section Program.
Context (E : Env) (H : Host).
Import PyStr PyPath.

(** The character U+0000. *)
Definition NUL : ascii := "000"%char.

Definition nul_error : exn :=
  {| exn_class := ValueError; exn_msg := "embedded null byte" |}.

(** [console.print] at [line] of [r1.py], its text formatted from
    [values].  The prints of a fixed text, and of a fixed text with a
    number in it, always go through and are left out. *)
Definition console_print (line : nat) (values : list str) : M unit := λ st,
  match markup_error H line values with
  | Some msg => (Raise {| exn_class := MarkupError; exn_msg := msg |}, st)
  | None => (Ok tt, st)
  end.

(** The directories of the host: those of the disk, the working directory
    and the directories above it. *)
Definition is_dir (d : Disk) (key : str) : bool :=
  bool_decide (key ∈ dirs d)
  || bool_decide
       (key ∈ map to_str (with_ancestors {| root := "/"; segs := cwd E |})).

(** *** 4. Helper functions *)

Definition read_local_file (file_path : str) : M str := λ st,
  if bool_decide (NUL ∈ file_path) then (Raise nul_error, st)
  else if bool_decide (file_path = [])
  then (Raise {| exn_class := FileNotFoundError;
                 exn_msg := "[Errno 2] No such file or directory: ''" |}, st)
  else
    match read_refusal H (disk st) file_path with
    | Some e => (Raise e, st)
    | None =>
        let key := fs_key E (Path file_path) in
        if is_dir (disk st) key
        then (Raise {| exn_class := OSError;
                       exn_msg := "[Errno 21] Is a directory: '"
                                  ++ file_path ++ "'" |}, st)
        else
          match files (disk st) !! key with
          | Some stored => (Ok (universal_newlines stored), st)
          | None =>
              (Raise {| exn_class := FileNotFoundError;
                        exn_msg := "[Errno 2] No such file or directory: '"
                                   ++ file_path ++ "'" |}, st)
          end
    end.

(** [Path(path_str).resolve()] looks every part of the path up on the
    host, which raises [ValueError] on a name that holds U+0000. *)
Definition normalize_path (path_str : str) : result str :=
  if bool_decide (NUL ∈ path_str) then Raise nul_error
  else
    let path := resolve (cwd E) (Path path_str) in
    if bool_decide (("..":str) ∈ parts path)
    then Raise {| exn_class := ValueError;
                  exn_msg := "Invalid path: " ++ path_str
                             ++ " contains parent directory references" |}
    else Ok (to_str path).

(** [dir.mkdir(parents=True, exist_ok=True)] *)
Definition mkdir_parents (dir : PurePath) : M unit := λ st,
  match mkdir_refusal H (disk st) (to_str dir) with
  | Some e => (Raise e, st)
  | None =>
      (Ok tt,
       {| conversation_history := conversation_history st;
          disk := {| files := files (disk st);
                     dirs := dirs (disk st)
                             ∪ list_to_set
                                 (map (fs_key E) (with_ancestors dir)) |};
          trace := trace st |})
  end.

(** [with open(file_path, "w") as f: f.write(text)] *)
Definition write_file (file_path : PurePath) (text : str) : M unit := λ st,
  match write_refusal H (disk st) (to_str file_path) with
  | Some e => (Raise e, st)
  | None =>
      if is_dir (disk st) (fs_key E file_path)
      then (Raise {| exn_class := OSError;
                     exn_msg := "[Errno 21] Is a directory: '"
                                ++ to_str file_path ++ "'" |}, st)
      else
        (Ok tt,
         {| conversation_history := conversation_history st;
            disk := {| files := <[fs_key E file_path := text]>
                                  (files (disk st));
                       dirs := dirs (disk st) |};
            trace := trace st ++ [EvWrite (fs_key E file_path) text] |})
  end.

Definition create_file (path text : str) : M unit :=
  let file_path := Path path in
  if existsb (startswith "~") (parts file_path)
  then raise {| exn_class := ValueError;
                exn_msg := "Home directory references not allowed" |}
  else
    let* normalized_path := lift (normalize_path (to_str file_path)) in
    if (5000000 <? len text)%N
    then raise {| exn_class := ValueError;
                  exn_msg := "File content exceeds 5MB size limit" |}
    else
      mkdir_parents (parent file_path) ;;
      write_file file_path text ;;
      console_print 258 [to_str file_path] ;;
      append_history
        (system_message ("File operation: Created/updated file at '"
                         ++ to_str file_path ++ "'")) ;;
      let* normalized_path := lift (normalize_path (to_str file_path)) in
      append_history (snapshot_message normalized_path text).

(** The [try] block of [apply_diff_edit] from the second line on, the
    file having been read. *)
Definition apply_diff_edit_body (path original new text : str) : M unit :=
  let occurrences := count original text in
  if occurrences =? 0
  then raise {| exn_class := ValueError;
                exn_msg := "Original snippet not found" |}
  else if 1 <? occurrences
  then raise {| exn_class := ValueError;
                exn_msg := "Ambiguous edit: " ++ pretty occurrences
                           ++ " matches" |}
  else
    let updated_content := replace1 original new text in
    create_file path updated_content ;;
    console_print 302 [path] ;;
    append_history
      (system_message ("File operation: Applied diff edit to '"
                       ++ path ++ "'")).

(** The two handlers of [apply_diff_edit].  [content] is the text of the
    file if it had been read when the exception was raised; the last line
    of the second handler prints it, and raises [UnboundLocalError] when
    there is none. *)
Definition apply_diff_edit_except (path original : str)
    (content : option str) (e : exn) : M unit :=
  if is_FileNotFoundError e then console_print 309 [path]
  else if is_ValueError e
  then
    console_print 311 [exn_msg e; path] ;;
    console_print 313 [original] ;;
    match content with
    | Some text => console_print 315 [text]
    | None =>
        raise {| exn_class := UnboundLocalError;
                 exn_msg := "cannot access local variable 'content' "
                            ++ "where it is not associated with a value" |}
    end
  else raise e.

Definition apply_diff_edit (path original new : str) : M unit := λ st,
  match read_local_file path st with
  | (Raise e, st') => apply_diff_edit_except path original None e st'
  | (Ok text, st') =>
      match apply_diff_edit_body path original new text st' with
      | (Raise e, st'') =>
          apply_diff_edit_except path original (Some text) e st''
      | ok => ok
      end
  end.

Definition get_file_content_from_history (file_path : str)
    (history : list Message) : result (option str) :=
  match normalize_path file_path with
  | Raise e => Raise e
  | Ok normalized_path =>
      Ok (first_snapshot (file_marker_of normalized_path) history)
  end.

Definition ensure_file_in_context (file_path : str) : M bool :=
  try_except
    (let* normalized_path := lift (normalize_path file_path) in
     let* history := get_history in
     let* existing_content :=
       lift (get_file_content_from_history normalized_path history) in
     match existing_content with
     | Some _ => ret true
     | None =>
         let* text := read_local_file normalized_path in
         append_history (snapshot_message normalized_path text) ;;
         ret true
     end)
    is_OSError
    (λ e, console_print 458 [file_path; exn_msg e] ;; ret false).

(** *** 6. Generation and review *)

Definition guess_files_in_message (user_message : str) : list str :=
  flat_map
    (λ word,
       if existsb (λ ext, contains ext word) recognized_extensions
          || contains "/" word
       then match normalize_path (strip_chars ("'," ++ DQ) word) with
            | Ok normalized_path => [normalized_path]
            | Raise _ => []
            end
       else [])
    (split_ws user_message).

(** The body of the loop of [validate_edits]: the issue an edit adds. *)
Definition edit_issue (history : list Message) (edit : FileToEdit)
    : result (option str) :=
  match get_file_content_from_history (edit_path edit) history with
  | Raise e => Raise e
  | Ok None =>
      Ok (Some ("File '" ++ edit_path edit ++ "' not found in context."))
  | Ok (Some text) =>
      let count := count (original_snippet edit) text in
      if count =? 0
      then Ok (Some ("Original snippet not found in '"
                     ++ edit_path edit ++ "'."))
      else if 1 <? count
      then Ok (Some ("Multiple occurrences (" ++ pretty count
                     ++ ") of snippet in '" ++ edit_path edit ++ "'."))
      else Ok None
  end.

Fixpoint collect_issues (history : list Message) (edits : list FileToEdit)
    : result (list str) :=
  match edits with
  | [] => Ok []
  | edit :: rest =>
      match edit_issue history edit with
      | Raise e => Raise e
      | Ok issue =>
          match collect_issues history rest with
          | Raise e => Raise e
          | Ok issues =>
              Ok (match issue with Some i => i :: issues | None => issues end)
          end
      end
  end.

Definition validate_edits (response_data : AssistantResponse)
    (history : list Message) : result (option AssistantResponse) :=
  match collect_issues history (items (files_to_edit response_data)) with
  | Raise e => Raise e
  | Ok [] => Ok None
  | Ok issues =>
      Ok (Some (verdict_response
                  (Some ("Invalid edits detected:" ++ NL ++ "- "
                         ++ join (NL ++ "- ") issues))
                  (Some ("Edits cannot be applied due to missing or ambiguous snippets." : str))
                  (Some ("NEED_CHANGES" : str))))
  end.

(** The outer [try] block of [generate_review] (lines 537-656). *)
Definition review_remotely (response_data : AssistantResponse)
    : M AssistantResponse :=
  let* history := get_history in
  let* request := lift (build_review_request E response_data history) in
  let* seen := get_trace in
  emit EvRemoteReview ;;
  let* chunks := lift (review_stream E seen request) in
  for_each chunks
    (λ chunk,
       match delta_content chunk with
       | Some ((_ :: _) as content_part) => console_print 628 [content_part]
       | _ => ret tt
       end) ;;
  let review_content := review_content_of chunks in
  match json_loads E review_content with
  | JSONDecodeError msg =>
      console_print 650 ["Failed to parse review response: " ++ msg] ;;
      console_print 651 [review_content] ;;
      ret (verdict_response (Some ("Failed to parse review response" : str))
                            (Some msg) (Some ("INCORRECT" : str)))
  | Parsed parsed =>
      let* review_result := lift (review_of_json E parsed) in
      if valid_output (output review_result)
      then
        console_print 645 [str_opt (output review_result)] ;;
        ret review_result
      else raise {| exn_class := ValueError;
                    exn_msg := "Invalid review status: "
                               ++ str_opt (output review_result) |}
  end.

Definition generate_review (response_data : AssistantResponse)
    : M AssistantResponse :=
  let* history := get_history in
  let* validation_result := lift (validate_edits response_data history) in
  match validation_result with
  | Some verdict =>
      emit EvLocalVerdict ;;
      emit (EvVerdict (output verdict)) ;;
      ret verdict
  | None =>
      let* verdict :=
        try_except (review_remotely response_data)
          (λ _, true)
          (λ e,
             let error_msg := "Review generation failed: " ++ exn_msg e in
             console_print 660 [error_msg] ;;
             ret (verdict_response
                    (Some ("Review process failed" : str))
                    (Some error_msg)
                    (Some ("INCORRECT" : str)))) in
      emit (EvVerdict (output verdict)) ;;
      ret verdict
  end.

(** The inner [try] block of [stream_openai_response] (lines 789-822). *)
Definition parse_final_content (final_content : str) : M AssistantResponse :=
  let final_content := lenient_json_text final_content in
  match json_loads E final_content with
  | JSONDecodeError msg =>
      let error_msg := "Failed to parse JSON response from assistant: "
                       ++ msg in
      console_print 816 [error_msg] ;;
      console_print 817 [final_content] ;;
      ret (reply_response error_msg (Some []) (Some []))
  | Parsed parsed_response => lift (response_of_json E parsed_response)
  end.

(** Lines 781-822: from the accumulated text to the response. *)
Definition response_of_content (final_content : str) : M AssistantResponse :=
  if bool_decide (strip final_content = [])
  then ret no_response
  else parse_final_content final_content.

(** The outer [try] block of [stream_openai_response] (lines 750-822). *)
Definition response_of_stream : M AssistantResponse :=
  let* seen := get_trace in
  let* messages := get_history in
  emit EvGenerate ;;
  let* chunks := lift (generation_stream E seen messages) in
  for_each chunks
    (λ chunk,
       match reasoning_content chunk with
       | Some ((_ :: _) as reasoning_part) => console_print 768 [reasoning_part]
       | _ =>
           match delta_content chunk with
           | Some ((_ :: _) as content_part) => console_print 777 [content_part]
           | _ => ret tt
           end
       end) ;;
  response_of_content (final_content_of chunks).

Definition stream_openai_response (user_message : str)
    : M AssistantResponse :=
  let* history := get_history in
  match history with
  | [] => raise {| exn_class := IndexError;
                   exn_msg := "list index out of range" |}
  | first :: rest =>
      set_history (cleaned_history first rest user_message) ;;
      for_each (guess_files_in_message user_message)
               (λ path, let* _ := ensure_file_in_context path in ret tt) ;;
      try_except response_of_stream
        (λ _, true)
        (λ e,
           let error_msg := "DeepSeek API error: " ++ exn_msg e in
           console_print 826 [error_msg] ;;
           ret (reply_response error_msg (Some []) None))
  end.

(** The warning sign U+26A0, as in [Program]. *)
Context (WARNING_SIGN : str).

Definition generate_plan (user_message : str) : M AssistantResponse :=
  let* original_history := get_history in
  let original_system := head original_history in
  try_finally
    (try_except
       (let planning_history :=
          system_message planning_system_PROMPT
          :: List.filter is_file_snapshot original_history in
        set_history planning_history ;;
        let* response := stream_openai_response user_message in
        match assistant_reply response with
        | Some ((_ :: _) as reply) => console_print 693 [reply]
        | _ => ret tt
        end ;;
        ret response)
       (λ _, true)
       (λ e,
          console_print 701 [exn_msg e] ;;
          ret {| assistant_reply :=
                   Some (WARNING_SIGN ++ " Planning Error: " ++ exn_msg e);
                 files_to_create := None; files_to_edit := None;
                 analysis := None; explanation := None; output := None |}))
    (set_history original_history ;;
     match original_system with
     | Some m => set_first m
     | None => ret tt
     end).

(** *** 7. The commit *)

(** Lines 968-973: the two loops that apply a change-set. *)
Definition apply_changes (response_data : AssistantResponse) : M unit :=
  for_each (items (files_to_create response_data))
           (λ file_info,
              create_file (create_path file_info) (create_content file_info)) ;;
  for_each (items (files_to_edit response_data))
           (λ edit_info,
              apply_diff_edit (edit_path edit_info)
                              (original_snippet edit_info)
                              (new_snippet edit_info)).

End Program.
End OnHost.

(** ** Notions the statements are phrased over *)



(** The number of offsets at which [sub] occurs in [c], overlapping or
    not: the occurrences of an exact substring, counted as the
    specification words it. *)
Definition occurrences (sub c : str) : nat :=
  length (List.filter (λ i, PyStr.startswith sub (drop i c))
                      (seq 0 (S (length c)))).

(** What [Path] leaves in a segment: it is not empty, not a dot, and
    holds no slash. *)
Definition seg_ok (s : str) : Prop := PyPath.keep_seg s = true ∧ "/"%char ∉ s.

Definition parsed (p : PyPath.PurePath) : Prop :=
  PyPath.root p ∈ [[]; "/" : str; "//" : str] ∧ Forall seg_ok (PyPath.segs p).

(** The state a successful [create_file] leaves behind. *)
Definition created_state (E : Env) (path text : str) (st : State) : State :=
  {| conversation_history :=
       conversation_history st
       ++ [system_message ("File operation: Created/updated file at '"
                           ++ PyPath.to_str (PyPath.Path path) ++ "'");
           snapshot_message (fs_key E (PyPath.Path path)) text];
     disk :=
       {| files := <[fs_key E (PyPath.Path path) := text]> (files (disk st));
          dirs := dirs (disk st)
                  ∪ list_to_set
                      (map (fs_key E)
                           (PyPath.with_ancestors
                              (PyPath.parent (PyPath.Path path)))) |};
     trace := trace st ++ [EvWrite (fs_key E (PyPath.Path path)) text] |}.

Definition home_error : exn :=
  {| exn_class := ValueError;
     exn_msg := "Home directory references not allowed" |}.

Definition size_error : exn :=
  {| exn_class := ValueError;
     exn_msg := "File content exceeds 5MB size limit" |}.

Definition not_found_error : exn :=
  {| exn_class := ValueError; exn_msg := "Original snippet not found" |}.

Definition ambiguous_error (occurrences : nat) : exn :=
  {| exn_class := ValueError;
     exn_msg := "Ambiguous edit: " ++ pretty occurrences ++ " matches" |}.

(** The state a successful [apply_diff_edit] leaves behind, [text] being
    what the file held. *)
Definition applied_state (E : Env) (path original new text : str)
    (st : State) : State :=
  let st' := created_state E path (PyStr.replace1 original new text) st in
  {| conversation_history :=
       conversation_history st'
       ++ [system_message ("File operation: Applied diff edit to '"
                           ++ path ++ "'")];
     disk := disk st';
     trace := trace st' |}.

(** Whether [apply_diff_edit] goes through: the file is there, the snippet
    is counted once in it, and [create_file] takes the path and the new
    text. *)
Definition edit_applies (E : Env) (path original new : str) (st : State)
    : bool :=
  match files (disk st) !! fs_key E (PyPath.Path path) with
  | None => false
  | Some text =>
      (PyStr.count original text =? 1)
      && negb (existsb (PyStr.startswith "~") (PyPath.parts (PyPath.Path path)))
      && negb (5000000 <? PyStr.len (PyStr.replace1 original new text))%N
  end.

(** The writes recorded in a trace, oldest first. *)
Definition writes (t : list Event) : list (str * str) :=
  flat_map (λ ev, match ev with EvWrite k c => [(k, c)] | _ => [] end) t.

(** The state [st] after the events [evs], nothing else changed. *)
Definition logged (st : State) (evs : list Event) : State :=
  {| conversation_history := conversation_history st;
     disk := disk st;
     trace := trace st ++ evs |}.

(** The number of review requests sent in a trace. *)
Definition remote_reviews (t : list Event) : nat :=
  length (List.filter (λ ev, match ev with EvRemoteReview => true | _ => false end) t).

(** The number of reviews answered by [validate_edits] in a trace. *)
Definition local_verdicts (t : list Event) : nat :=
  length (List.filter (λ ev, match ev with EvLocalVerdict => true | _ => false end) t).

(** The outputs of the reviews of a trace, oldest first. *)
Definition verdicts (t : list Event) : list (option str) :=
  flat_map (λ ev, match ev with EvVerdict o => [o] | _ => [] end) t.

(** The number of generation requests sent in a trace. *)
Definition generations (t : list Event) : nat :=
  length (List.filter (λ ev, match ev with EvGenerate => true | _ => false end) t).

(** The verdict [validate_edits] makes up from a list of issues. *)
Definition local_verdict (issues : list str) : AssistantResponse :=
  verdict_response
    (Some ("Invalid edits detected:" ++ NL ++ "- "
           ++ PyStr.join (NL ++ "- ") issues))
    (Some ("Edits cannot be applied due to missing or ambiguous snippets." : str))
    (Some ("NEED_CHANGES" : str)).

(** A message that [get_file_content_from_history] takes for a snapshot
    of the file with canonical path [key]. *)
Definition is_snapshot_of (key : str) (msg : Message) : bool :=
  is_system msg
  && PyStr.contains (file_marker_of key ++ ":" ++ NL ++ NL) (content msg).



(** The events of one review: one output, no generation, no write, at
    most one answer (local or remote), and exactly one when the output is
    NEED_CHANGES. *)
Definition review_events (evs : list Event) (o : option str) : Prop :=
  verdicts evs = [o]
  ∧ generations evs = 0
  ∧ writes evs = []
  ∧ remote_reviews evs + local_verdicts evs ≤ 1
  ∧ (o = Some ("NEED_CHANGES" : str) →
     remote_reviews evs + local_verdicts evs = 1).

Definition is_need_changes (o : option str) : Prop :=
  o = Some ("NEED_CHANGES" : str).

(** A write that belongs to a change-set: the file of one of its new
    files, with the content proposed for it, or the file of one of its
    edits. *)
Definition write_of (E : Env) (response_data : AssistantResponse)
    (w : str * str) : Prop :=
  (∃ file, file ∈ items (files_to_create response_data)
           ∧ w = (fs_key E (PyPath.Path (create_path file)),
                  create_content file))
  ∨ (∃ edit, edit ∈ items (files_to_edit response_data)
             ∧ w.1 = fs_key E (PyPath.Path (edit_path edit))).

(** ** Notions of the further properties *)

(** The state [st] with the messages [extra] appended, nothing else
    changed. *)
Definition extended (st : State) (extra : list Message) : State :=
  {| conversation_history := conversation_history st ++ extra;
     disk := disk st;
     trace := trace st |}.



(** A file name that [add_directory_to_conversation] does not skip. *)
Definition wanted_name (file : str) : bool :=
  negb (PyStr.startswith "." file)
  && negb (bool_decide (file ∈ excluded_files))
  && negb (bool_decide (PyStr.lower (suffix file) ∈ excluded_extensions)).


(** A computation that keeps a property of the conversation history,
    whether it returns or raises. *)
Definition keeps {A} (P : list Message → Prop) (c : M A) : Prop :=
  ∀ st, P (conversation_history st) → P (conversation_history (c st).2).



(** Reading a trace from the oldest event on, [verdict] being the output
    of the last review since the last generation request ([None] when
    there is none): every write comes under the verdict CORRECT. *)
Fixpoint licensed (verdict : option str) (t : list Event) : bool :=
  match t with
  | [] => true
  | EvGenerate :: t' => licensed None t'
  | EvVerdict o :: t' => licensed o t'
  | EvWrite _ _ :: t' =>
      bool_decide (verdict = Some ("CORRECT" : str)) && licensed verdict t'
  | _ :: t' => licensed verdict t'
  end.

(** The verdict in force after the events of [t]. *)
Fixpoint verdict_after (verdict : option str) (t : list Event) : option str :=
  match t with
  | [] => verdict
  | EvGenerate :: t' => verdict_after None t'
  | EvVerdict o :: t' => verdict_after o t'
  | _ :: t' => verdict_after verdict t'
  end.

Definition is_write (ev : Event) : bool :=
  match ev with EvWrite _ _ => true | _ => false end.

(** A computation whose events, whether it returns or raises, have the
    property [Q]. *)
Definition adds {A} (Q : list Event → Prop) (c : M A) : Prop :=
  ∀ st, ∃ delta, trace (c st).2 = trace st ++ delta ∧ Q delta.


(** * Scenarios *)

Definition one_chunk (text : str) : list Chunk :=
  [{| reasoning_content := None; delta_content := Some text |}].

(** A host with working directory [/w], a generation model that always
    proposes [proposal] and a review model that always answers [verdict]. *)
Definition scenario_env (proposal : AssistantResponse) (verdict : str) : Env :=
  {| cwd := ["w" : str];
     cwd_canonical := eq_refl;
     generation_stream := λ _ _, Ok (one_chunk "{}");
     review_stream := λ _ _, Ok (one_chunk "{}");
     json_loads := λ _, Parsed (JObject []);
     response_of_json := λ _, Ok proposal;
     review_of_json := λ _,
       Ok (verdict_response (Some ("looked at it" : str))
                            (Some ("as asked" : str)) (Some verdict));
     plan_of_json := λ _, Ok [] |}.

Definition edits_only (edits : list FileToEdit) : AssistantResponse :=
  reply_response "done" (Some []) (Some edits).

(** [a.txt] holds [foo bar], on disk and in the conversation. *)
Definition a_txt_state : State :=
  {| conversation_history :=
       [system_message "You are an elite software engineer";
        system_message ("Content of file '/w/a.txt':" ++ NL ++ NL ++ "foo bar")];
     disk := {| files := {[ ("/w/a.txt" : str) := ("foo bar" : str) ]};
                dirs := {[ ("/" : str); ("/w" : str) ]} |};
     trace := [] |}.

(** Two edits of [a.txt]; the first removes what the second looks for. *)
Definition two_edits : AssistantResponse :=
  edits_only
    [{| edit_path := "a.txt"; original_snippet := "foo"; new_snippet := "baz" |};
     {| edit_path := "a.txt"; original_snippet := "foo bar";
        new_snippet := "qux" |}].




(** A host with working directory [/w] and nothing scripted. *)
Definition plain_env : Env := scenario_env (edits_only []) "CORRECT".



Definition foo_edit : FileToEdit :=
  {| edit_path := "a.txt"; original_snippet := "foo"; new_snippet := "baz" |}.


Definition unknown_file_edit : FileToEdit :=
  {| edit_path := "b.txt"; original_snippet := "foo"; new_snippet := "y" |}.

(** More than five million bytes of UTF-8 in fewer than five million
    characters: 2,600,000 times the letter e with an acute accent. *)
Definition big_text : str := replicate (N.to_nat 2600000) "233"%char.


(** [a.txt] holds [foo] on two lines, on disk and in the conversation. *)
Definition foo_foo_state : State :=
  {| conversation_history :=
       [system_message "You are an elite software engineer";
        system_message ("Content of file '/w/a.txt':" ++ NL ++ NL
                        ++ "foo" ++ NL ++ "foo" ++ NL)];
     disk := {| files := {[ ("/w/a.txt" : str)
                            := ("foo" ++ NL ++ "foo" ++ NL : str) ]};
                dirs := {[ ("/" : str); ("/w" : str) ]} |};
     trace := [] |}.

(** ** Scenarios of the further properties *)

(** A project directory with a source file, a hidden file, a picture, a
    file with a zero byte in it, and a file in a hidden and one in a
    plain directory below. *)
Definition project_state : State :=
  {| conversation_history :=
       [system_message "You are an elite software engineer"];
     disk :=
       {| files :=
            {[ ("/w/proj/a.py" : str) := ("print(1)" : str);
               ("/w/proj/.hidden" : str) := ("x" : str);
               ("/w/proj/img.PNG" : str) := ("data" : str);
               ("/w/proj/bin.dat" : str) := ["a"%char; "000"%char; "b"%char];
               ("/w/proj/.git/config" : str) := ("c" : str);
               ("/w/proj/sub/b.txt" : str) := ("hello" : str) ]};
          dirs := {[ ("/" : str); ("/w" : str); ("/w/proj" : str);
                     ("/w/proj/.git" : str); ("/w/proj/sub" : str) ]} |};
     trace := [] |}.

(** The note [apply_diff_edit] leaves in the history. *)
Definition edit_note : Message :=
  system_message "File operation: Applied diff edit to 'a.txt'".

(** A new file that [create_file] takes, one in the home directory, and
    one more. *)
Definition ok_file : FileToCreate :=
  {| create_path := "ok.txt"; create_content := "fine" |}.

Definition home_file : FileToCreate :=
  {| create_path := "~/x.txt"; create_content := "no" |}.

Definition later_file : FileToCreate :=
  {| create_path := "later.txt"; create_content := "never" |}.

Definition three_new_files : AssistantResponse :=
  reply_response "done" (Some [ok_file; home_file; later_file])
                 (Some [foo_edit]).

(** The technical stack documentation is in the working directory. *)
Definition tech_stack_state : State :=
  {| conversation_history :=
       [system_message "You are an elite software engineer"];
     disk := {| files := {[ ("/w/tech_stack.md" : str)
                            := ("Python 3.12" : str) ]};
                dirs := {[ ("/" : str); ("/w" : str) ]} |};
     trace := [] |}.

(** The verdict of the review model of [scenario_env]. *)
Definition scripted_verdict (verdict : str) : AssistantResponse :=
  verdict_response (Some ("looked at it" : str)) (Some ("as asked" : str))
                   (Some verdict).

(** * Facts about the [str] methods *)

Module PyStrFacts.
Import PyStr.

Lemma startswith_spec p s : startswith p s = true ↔ ∃ t, s = p ++ t.
Proof.
  revert s; induction p as [|a p IH]; intros s; simpl.
  - split; [intros _; by exists s | done].
  - destruct s as [|b s]; simpl.
    + split; [done | intros [t Ht]; discriminate].
    + rewrite andb_true_iff, IH. split.
      * intros [Hab [t ->]]. apply Ascii.eqb_eq in Hab as ->. by exists t.
      * intros [t Ht]. injection Ht as -> ->. split; [apply Ascii.eqb_refl | by exists t].
Qed.

Lemma startswith_app p t : startswith p (p ++ t) = true.
Proof. apply startswith_spec. by exists t. Qed.














(** What [find] returns is a way to cut the text around [sub]. *)
Lemma find_Some sub c pre post :
  find sub c = Some (pre, post) → c = pre ++ sub ++ post.
Proof.
  revert pre post; induction c as [|a c IH]; intros pre post; simpl.
  - destruct (startswith sub []) eqn:Hs; [|done].
    intros [= <- <-]. apply startswith_spec in Hs as [t Ht].
    destruct sub; [done | discriminate].
  - destruct (startswith sub (a :: c)) eqn:Hs.
    + intros [= <- <-]. apply startswith_spec in Hs as [t Ht].
      rewrite Ht at 1. rewrite Ht, drop_app_length. done.
    + destruct (find sub c) as [[pre' post']|]; [|done].
      intros [= <- <-]. simpl. f_equal. by apply IH.
Qed.

Lemma find_None sub c pre post : find sub c = None → c ≠ pre ++ sub ++ post.
Proof.
  revert pre; induction c as [|a c IH]; intros pre; simpl.
  - destruct (startswith sub []) eqn:Hs; [done|]. intros _ Hc.
    symmetry in Hc. apply app_eq_nil in Hc as [_ [-> _]%app_eq_nil].
    discriminate.
  - destruct (startswith sub (a :: c)) eqn:Hs; [done|].
    destruct (find sub c) as [[pre' post']|] eqn:Hf; [done|]. intros _ Hc.
    destruct pre as [|b pre].
    + simpl in Hc. assert (startswith sub (a :: c) = true); [|congruence].
      apply startswith_spec. by exists post.
    + injection Hc as -> Hc. by eapply IH.
Qed.

Lemma find_at_start sub c : find sub (sub ++ c) = Some ([], c).
Proof.
  destruct (sub ++ c) as [|a t] eqn:Hsc; simpl.
  - apply app_eq_nil in Hsc as [-> ->]. done.
  - rewrite <- Hsc, startswith_app, drop_app_length. done.
Qed.

Lemma contains_true sub c :
  contains sub c = true ↔ ∃ pre post, c = pre ++ sub ++ post.
Proof.
  unfold contains. destruct (find sub c) as [[pre post]|] eqn:Hf.
  - split; [|done]. intros _. exists pre, post. by apply find_Some.
  - split; [done|]. intros (pre & post & Hc). by eapply find_None in Hf.
Qed.

(** A text that holds [a ++ b] holds [a]. *)
Lemma contains_app_l a b c :
  contains (a ++ b) c = true → contains a c = true.
Proof.
  rewrite !contains_true. intros (pre & post & ->).
  exists pre, (b ++ post). by rewrite <- app_assoc.
Qed.

End PyStrFacts.

(** * Facts about paths *)

Module PyPathFacts.
Import PyStr PyPath.

Lemma good_seg_spec s :
  good_seg s = true ↔ s ≠ [] ∧ s ≠ "." ∧ s ≠ ".." ∧ "/"%char ∉ s.
Proof.
  unfold good_seg. rewrite negb_true_iff, !orb_false_iff, !bool_decide_eq_false.
  tauto.
Qed.

Lemma elem_of_rev {A} (x : A) (l : list A) : x ∈ rev l ↔ x ∈ l.
Proof. rewrite !list_elem_of_In. symmetry. apply in_rev. Qed.

(** No step of the walk brings in a parent-directory segment. *)
Lemma walk_step_no_dotdot stack name :
  (".." : str) ∉ stack → (".." : str) ∉ walk_step stack name.
Proof.
  intros Hs. unfold walk_step.
  destruct (bool_decide (name = []) || bool_decide (name = ".")); [done|].
  destruct (bool_decide (name = "..")) eqn:Hn.
  - destruct stack as [|s stack]; [done|].
    apply not_elem_of_cons in Hs. by destruct Hs.
  - apply bool_decide_eq_false in Hn.
    apply not_elem_of_cons. split; [congruence | done].
Qed.

Lemma walk_no_dotdot names stack :
  (".." : str) ∉ stack → (".." : str) ∉ fold_left walk_step names stack.
Proof.
  revert stack; induction names as [|n names IH]; intros stack Hs; simpl.
  - done.
  - by apply IH, walk_step_no_dotdot.
Qed.

(** Segments that are neither empty, nor a dot, nor two dots are pushed
    one after the other. *)
Lemma walk_push names stack :
  Forall (λ s : str, keep_seg s = true ∧ s ≠ "..") names →
  fold_left walk_step names stack = rev names ++ stack.
Proof.
  revert stack; induction names as [|n names IH]; intros stack Hn; simpl.
  - done.
  - inversion Hn as [|? ? [Hk Hd] Hrest]; subst.
    rewrite IH by done. unfold walk_step.
    unfold keep_seg in Hk. apply negb_true_iff in Hk. rewrite Hk.
    rewrite bool_decide_eq_false_2 by done.
    by rewrite <- app_assoc.
Qed.

Lemma cwd_good (E : Env) : Forall (λ s, good_seg s = true) (cwd E).
Proof. apply Forall_forall. intros s Hs. 
  pose proof (cwd_canonical E) as H. rewrite forallb_forall in H.
  apply H. by apply list_elem_of_In. Qed.

Lemma cwd_no_dotdot (E : Env) : (".." : str) ∉ cwd E.
Proof.
  intros Hin. pose proof (cwd_good E) as H. rewrite Forall_forall in H.
  apply H, good_seg_spec in Hin. tauto.
Qed.

(** [resolve] leaves no parent-directory part: the test of
    [normalize_path] never fires. *)
Lemma resolve_no_dotdot (E : Env) p :
  (".." : str) ∉ parts (resolve (cwd E) p).
Proof.
  unfold parts, resolve. simpl. apply not_elem_of_cons. split; [done|].
  rewrite elem_of_rev. apply walk_no_dotdot.
  destruct (root p); [|set_solver].
  rewrite elem_of_rev. apply cwd_no_dotdot.
Qed.

Lemma normalize_path_total (E : Env) path_str :
  normalize_path E path_str = Ok (fs_key E (Path path_str)).
Proof.
  unfold normalize_path. rewrite bool_decide_eq_false_2; [done|].
  apply resolve_no_dotdot.
Qed.

(** The pieces [split] cuts at a character do not hold it. *)
Lemma split_char_no_sep ch s : Forall (λ w, ch ∉ w) (split_char ch s).
Proof.
  induction s as [|a s IH]; simpl.
  - repeat constructor. apply not_elem_of_nil.
  - destruct (Ascii.eqb a ch) eqn:Hach.
    + constructor; [apply not_elem_of_nil | done].
    + apply Ascii.eqb_neq in Hach.
      destruct (split_char ch s) as [|w ws]; inversion IH; subst.
      * repeat constructor. apply not_elem_of_cons.
        split; [congruence | apply not_elem_of_nil].
      * constructor; [|done].
        apply not_elem_of_cons. split; [congruence | done].
Qed.

Lemma split_char_nonempty ch s : split_char ch s ≠ [].
Proof.
  destruct s as [|a s]; simpl; [done|].
  destruct (Ascii.eqb a ch); [done|]. by destruct (split_char ch s).
Qed.

Lemma split_char_app ch w s :
  ch ∉ w →
  split_char ch (w ++ ch :: s) = w :: split_char ch s.
Proof.
  induction w as [|a w IH]; intros Hw; simpl.
  - by rewrite Ascii.eqb_refl.
  - assert (Ascii.eqb a ch = false) as ->.
    { apply Ascii.eqb_neq. set_solver. }
    rewrite IH by set_solver. done.
Qed.

Lemma split_char_plain ch w : ch ∉ w → split_char ch w = [w].
Proof.
  induction w as [|a w IH]; intros Hw; simpl; [done|].
  assert (Ascii.eqb a ch = false) as ->.
  { apply Ascii.eqb_neq. set_solver. }
  rewrite IH by set_solver. done.
Qed.

(** Cutting a joined list at the separator gives the list back. *)
Lemma split_char_join (l : list str) :
  l ≠ [] → Forall (λ w, "/"%char ∉ w) l →
  split_char "/" (join "/" l) = l.
Proof.
  induction l as [|w l IH]; [done|]. intros _ Hl.
  inversion Hl as [|? ? Hw Hrest]; subst.
  destruct l as [|w' l].
  - simpl. by apply split_char_plain.
  - change (join "/" (w :: w' :: l)) with (w ++ "/"%char :: join "/" (w' :: l)).
    rewrite split_char_app by done. by rewrite IH.
Qed.

Lemma good_seg_ok s : good_seg s = true → seg_ok s.
Proof.
  intros (? & ? & _ & ?)%good_seg_spec. split; [|done].
  unfold keep_seg. by rewrite !bool_decide_eq_false_2.
Qed.

Lemma filter_keep_ok (l : list str) :
  Forall seg_ok l → List.filter keep_seg l = l.
Proof.
  induction 1 as [|s l [Hs _] _ IH]; simpl; [done|].
  by rewrite Hs, IH.
Qed.

Lemma splitroot_cases p : splitroot p ∈ [[]; "/" : str; "//" : str].
Proof.
  unfold splitroot.
  repeat (match goal with
          | |- context [match ?x with _ => _ end] => destruct x
          end; try set_solver).
Qed.

Lemma Path_parsed path_str : parsed (Path path_str).
Proof.
  split; [apply splitroot_cases|]. simpl.
  apply Forall_forall. intros s [Hin Hk]%list_elem_of_In%filter_In.
  split; [done|].
  pose proof (split_char_no_sep "/" path_str) as Hno.
  rewrite Forall_forall in Hno. by apply Hno, list_elem_of_In.
Qed.

Lemma join_cons_app (w : str) (l : list str) :
  ∃ rest, join "/" (w :: l) = w ++ rest.
Proof. destruct l; simpl; eauto. exists []. by rewrite app_nil_r. Qed.

Lemma splitroot_seg (w rest : str) :
  seg_ok w → splitroot (w ++ rest) = [].
Proof.
  intros [Hk Hs]. destruct w as [|a w]; [done|].
  assert (a ≠ "/"%char) by set_solver.
  simpl. destruct a as [[] [] [] [] [] [] [] []]; done.
Qed.

Lemma splitroot_slash_seg (l : list str) :
  Forall seg_ok l → splitroot ("/"%char :: join "/" l) = "/".
Proof.
  intros Hl. destruct l as [|w l]; [done|].
  inversion Hl as [|? ? [Hk Hs] _]; subst.
  destruct (join_cons_app w l) as [rest ->].
  destruct w as [|a w]; [done|].
  assert (a ≠ "/"%char) by set_solver.
  simpl. destruct a as [[] [] [] [] [] [] [] []]; done.
Qed.

Lemma splitroot_slash2_seg (l : list str) :
  Forall seg_ok l → splitroot ("/"%char :: "/"%char :: join "/" l) = "//".
Proof.
  intros Hl. destruct l as [|w l]; [done|].
  inversion Hl as [|? ? [Hk Hs] _]; subst.
  destruct (join_cons_app w l) as [rest ->].
  destruct w as [|a w]; [done|].
  assert (a ≠ "/"%char) by set_solver.
  simpl. destruct a as [[] [] [] [] [] [] [] []]; done.
Qed.

Lemma split_join_ok (l : list str) :
  Forall seg_ok l →
  List.filter keep_seg (split_char "/" (join "/" l)) = l.
Proof.
  intros Hl. destruct l as [|w l]; [done|].
  rewrite split_char_join; [by apply filter_keep_ok | done |].
  eapply Forall_impl; [exact Hl|]. by intros s [_ ?].
Qed.

(** Printing a parsed path and parsing it again gives it back. *)
Lemma Path_to_str p : parsed p → Path (to_str p) = p.
Proof.
  destruct p as [r l]. intros [Hr Hl]. cbn [root segs] in *. unfold Path.
  rewrite !elem_of_cons in Hr. destruct Hr as [->|[->|[->|Hr]]]; [| | |set_solver].
  - destruct l as [|w l]; [done|].
    change (to_str {| root := []; segs := w :: l |})
      with (join "/" (w :: l)).
    f_equal.
    + destruct (join_cons_app w l) as [rest Hj].
      rewrite Hj. apply splitroot_seg. by inversion Hl.
    + by apply split_join_ok.
  - change (to_str {| root := "/"; segs := l |})
      with ("/"%char :: join "/" l).
    f_equal.
    + by apply splitroot_slash_seg.
    + replace (split_char "/" ("/"%char :: join "/" l))
        with ([] :: split_char "/" (join "/" l)) by done.
      change (List.filter keep_seg ([] :: split_char "/" (join "/" l)))
        with (List.filter keep_seg (split_char "/" (join "/" l))).
      by apply split_join_ok.
  - change (to_str {| root := "//"; segs := l |})
      with ("/"%char :: "/"%char :: join "/" l).
    f_equal.
    + by apply splitroot_slash2_seg.
    + replace (split_char "/" ("/"%char :: "/"%char :: join "/" l))
        with ([] :: [] :: split_char "/" (join "/" l)) by done.
      change (List.filter keep_seg ([] :: [] :: split_char "/" (join "/" l)))
        with (List.filter keep_seg (split_char "/" (join "/" l))).
      by apply split_join_ok.
Qed.

Lemma Path_idem path_str : Path (to_str (Path path_str)) = Path path_str.
Proof. apply Path_to_str, Path_parsed. Qed.

(** Parsing the text of an absolute path with good segments. *)
Lemma Path_of_canonical (l : list str) :
  Forall (λ s, good_seg s = true) l →
  Path ("/" ++ join "/" l) = {| root := "/"; segs := l |}.
Proof.
  intros Hl. apply (Path_to_str {| root := "/"; segs := l |}).
  split; [set_solver|]. eapply Forall_impl; [exact Hl|]. apply good_seg_ok.
Qed.

Lemma resolve_canonical cwd0 (l : list str) :
  Forall (λ s, good_seg s = true) l →
  resolve cwd0 {| root := "/"; segs := l |} = {| root := "/"; segs := l |}.
Proof.
  intros Hl. unfold resolve. simpl. f_equal.
  rewrite walk_push, app_nil_r, rev_involutive; [done|].
  eapply Forall_impl; [exact Hl|]. intros s Hs.
  apply good_seg_spec in Hs as (? & ? & ? & _).
  split; [|done]. unfold keep_seg. by rewrite !bool_decide_eq_false_2.
Qed.


End PyPathFacts.

(** * Facts about the program *)

Ltac monad_unfold :=
  unfold bind, ret, raise, lift, try_except, get_history, set_history,
    append_history, emit, get_trace in *.

Section ProgramFacts.
Context (E : Env).
Import PyStr PyPath PyStrFacts PyPathFacts.

(** [create_file], case by case. *)
Lemma create_file_run path text st :
  create_file E path text st =
    if existsb (startswith "~") (parts (Path path))
    then (Raise home_error, st)
    else if (5000000 <? len text)%N
    then (Raise size_error, st)
    else (Ok tt, created_state E path text st).
Proof.
  unfold create_file.
  destruct (existsb _ _); [done|].
  unfold bind at 1. unfold lift at 1.
  rewrite normalize_path_total.
  destruct (5000000 <? len text)%N; [done|].
  unfold mkdir_parents, write_file. monad_unfold.
  cbn [conversation_history disk trace files dirs].
  rewrite Path_idem.
  unfold created_state. by rewrite <- app_assoc.
Qed.

(** The [try] block of [apply_diff_edit], case by case. *)
Lemma apply_diff_edit_body_run path original new st :
  apply_diff_edit_body E path original new st =
    match files (disk st) !! fs_key E (Path path) with
    | None =>
        (Raise {| exn_class := FileNotFoundError;
                  exn_msg := "[Errno 2] No such file or directory: '"
                             ++ path ++ "'" |}, st)
    | Some text =>
        let n := count original text in
        if n =? 0 then (Raise not_found_error, st)
        else if 1 <? n then (Raise (ambiguous_error n), st)
        else if existsb (startswith "~") (parts (Path path))
        then (Raise home_error, st)
        else if (5000000 <? len (replace1 original new text))%N
        then (Raise size_error, st)
        else (Ok tt, applied_state E path original new text st)
    end.
Proof.
  unfold apply_diff_edit_body, read_local_file. unfold bind at 1.
  destruct (files (disk st) !! fs_key E (Path path)) as [text|]; [|done].
  cbn zeta. destruct (count original text =? 0); [done|].
  destruct (1 <? count original text); [done|].
  unfold bind. rewrite create_file_run.
  destruct (existsb _ _); [done|].
  destruct (5000000 <? _)%N; done.
Qed.

(** [apply_diff_edit] never raises: it either applies the edit or
    leaves everything as it was. *)
Lemma apply_diff_edit_run path original new st :
  apply_diff_edit E path original new st =
    if edit_applies E path original new st
    then match files (disk st) !! fs_key E (Path path) with
         | Some text => (Ok tt, applied_state E path original new text st)
         | None => (Ok tt, st)
         end
    else (Ok tt, st).
Proof.
  unfold apply_diff_edit, try_except, edit_applies.
  rewrite apply_diff_edit_body_run.
  destruct (files (disk st) !! fs_key E (Path path)) as [text|]; [|done].
  cbn zeta.
  destruct (count original text) as [|[|n]] eqn:Hn; simpl; try done.
  destruct (existsb _ _); [done|].
  destruct (5000000 <? _)%N; done.
Qed.

Lemma get_file_content_from_history_run file_path history :
  get_file_content_from_history E file_path history =
    Ok (first_snapshot
          (file_marker_of (fs_key E (Path file_path))) history).
Proof.
  unfold get_file_content_from_history. by rewrite normalize_path_total.
Qed.

(** An edit adds no issue, or one of three that name its path. *)
Lemma edit_issue_total history edit :
  ∃ issue, edit_issue E history edit = Ok issue.
Proof.
  unfold edit_issue. rewrite get_file_content_from_history_run.
  destruct (first_snapshot _ _) as [text|]; [|eauto].
  cbn zeta. destruct (count _ _ =? 0); [eauto|].
  destruct (1 <? count _ _); eauto.
Qed.


(** The loop of [validate_edits] collects every issue, in order. *)
Lemma collect_issues_total history edits :
  ∃ issues,
    collect_issues E history edits = Ok issues
    ∧ (∀ issue, issue ∈ issues ↔
         ∃ edit, edit ∈ edits ∧ edit_issue E history edit = Ok (Some issue)).
Proof.
  induction edits as [|e edits (issues & Hc & Hin)]; simpl.
  - exists []. split; [done|]. intros issue. split.
    + intros Hin. by apply elem_of_nil in Hin.
    + intros (edit & He & _). by apply elem_of_nil in He.
  - destruct (edit_issue_total history e) as [o Ho]. rewrite Ho, Hc.
    destruct o as [i|].
    + exists (i :: issues). split; [done|]. intros issue.
      rewrite elem_of_cons, Hin. split.
      * intros [->|(edit & ? & ?)].
        -- exists e. split; [apply list_elem_of_here | done].
        -- exists edit. split; [by apply list_elem_of_further | done].
      * intros (edit & [->|He]%elem_of_cons & Hi).
        -- left. congruence.
        -- right. eauto.
    + exists issues. split; [done|]. intros issue. rewrite Hin. split.
      * intros (edit & ? & ?). exists edit.
        split; [by apply list_elem_of_further | done].
      * intros (edit & [->|He]%elem_of_cons & Hi); [congruence | eauto].
Qed.

Lemma validate_edits_run response_data history :
  ∃ issues,
    collect_issues E history (items (files_to_edit response_data))
      = Ok issues
    ∧ validate_edits E response_data history
      = Ok (match issues with
            | [] => None
            | _ => Some (local_verdict issues)
            end).
Proof.
  destruct (collect_issues_total history
              (items (files_to_edit response_data))) as (issues & Hc & _).
  exists issues. split; [done|]. unfold validate_edits. rewrite Hc.
  by destruct issues.
Qed.


(** What [generate_review] does when [validate_edits] finds issues. *)
Lemma generate_review_local response_data st issues :
  collect_issues E (conversation_history st)
    (items (files_to_edit response_data)) = Ok issues →
  issues ≠ [] →
  generate_review E response_data st =
    (Ok (local_verdict issues),
     logged st [EvLocalVerdict; EvVerdict (Some ("NEED_CHANGES" : str))]).
Proof.
  intros Hc Hne. unfold generate_review. monad_unfold. cbn.
  unfold validate_edits. rewrite Hc.
  destruct issues as [|i issues]; [done|]. cbn.
  unfold logged. by rewrite <- app_assoc.
Qed.

(** The loop passes over a message that is no snapshot of the file. *)
Lemma first_snapshot_skip key msg rest :
  is_snapshot_of key msg = false →
  first_snapshot (file_marker_of key) (msg :: rest)
  = first_snapshot (file_marker_of key) rest.
Proof.
  unfold is_snapshot_of. generalize (file_marker_of key) as marker.
  intros marker Hno. cbn [first_snapshot].
  destruct (is_system msg); [|done]. cbn [andb] in *.
  destruct (contains marker (content msg)); [|done].
  unfold split1. unfold contains in Hno.
  by destruct (find (marker ++ ":" ++ NL ++ NL) (content msg))
    as [[pre post]|].
Qed.

Lemma snapshot_message_content key text :
  content (snapshot_message key text)
  = (file_marker_of key ++ ":" ++ NL ++ NL) ++ text.
Proof.
  unfold snapshot_message, file_marker_of, system_message. cbn [content].
  rewrite <- !app_assoc. reflexivity.
Qed.

(** The loop stops at a snapshot of the file and returns its text. *)
Lemma first_snapshot_here key text rest :
  first_snapshot (file_marker_of key) (snapshot_message key text :: rest)
  = Some text.
Proof.
  cbn [first_snapshot].
  rewrite snapshot_message_content.
  assert (is_system (snapshot_message key text) = true) as -> by done.
  assert (contains (file_marker_of key)
            ((file_marker_of key ++ ":" ++ NL ++ NL) ++ text) = true) as ->.
  { apply contains_app_l with (b := ":" ++ NL ++ NL).
    apply contains_true. by exists [], text. }
  unfold split1. by rewrite find_at_start.
Qed.

Lemma first_snapshot_none key history :
  Forall (λ m, is_snapshot_of key m = false) history →
  first_snapshot (file_marker_of key) history = None.
Proof.
  induction 1 as [|m history Hm _ IH]; [done|].
  by rewrite first_snapshot_skip.
Qed.


(** What the loop has found stays found when messages are appended. *)
Lemma first_snapshot_app marker history extra text :
  first_snapshot marker history = Some text →
  first_snapshot marker (history ++ extra) = Some text.
Proof.
  induction history as [|m history IH]; [done|]. simpl.
  destruct (is_system m && contains marker (content m)); [|done].
  by destruct (split1 _ _) as [|? [|? ?]].
Qed.

Lemma logged_logged st a b : logged (logged st a) b = logged st (a ++ b).
Proof. unfold logged. cbn. by rewrite <- app_assoc. Qed.

Lemma logged_nil st : logged st [] = st.
Proof. destruct st. unfold logged. cbn. by rewrite app_nil_r. Qed.

(** One review: it never raises, it leaves the history and the disk as
    they are, and its events are those of [review_events]. *)
Lemma generate_review_run response_data st :
  ∃ verdict evs,
    generate_review E response_data st = (Ok verdict, logged st evs)
    ∧ review_events evs (output verdict).
Proof.
  destruct (validate_edits_run response_data (conversation_history st))
    as (issues & Hc & Hv).
  destruct issues as [|i issues].
  - unfold generate_review, review_remotely. monad_unfold.
    cbn [conversation_history disk trace]. rewrite Hv.
    destruct (build_review_request _ _) as [request|e].
    + cbn [conversation_history disk trace].
      destruct (review_stream E (trace st) request) as [chunks|e].
      * destruct (json_loads E (review_content_of chunks)) as [msg|parsed].
        -- eexists _, [EvRemoteReview; EvVerdict _].
           split; [unfold logged; cbn; by rewrite <- app_assoc|].
           by repeat split.
        -- destruct (review_of_json E parsed) as [review_result|e].
           ++ destruct (valid_output (output review_result)).
              ** eexists _, [EvRemoteReview; EvVerdict _].
                 split; [unfold logged; cbn; by rewrite <- app_assoc|].
                 by repeat split.
              ** eexists _, [EvRemoteReview; EvVerdict _].
                 split; [unfold logged; cbn; by rewrite <- app_assoc|].
                 by repeat split.
           ++ eexists _, [EvRemoteReview; EvVerdict _].
              split; [unfold logged; cbn; by rewrite <- app_assoc|].
              by repeat split.
      * eexists _, [EvRemoteReview; EvVerdict _].
        split; [unfold logged; cbn; by rewrite <- app_assoc|].
        by repeat split.
    + eexists _, [EvVerdict _].
      split; [unfold logged; cbn; done|].
      repeat split; cbn; try lia. discriminate.
  - eexists _, _. split; [by apply generate_review_local|].
    by repeat split.
Qed.

(** [ensure_file_in_context] never raises and touches only the history,
    which it leaves as it is or makes longer. *)
Lemma ensure_file_in_context_run file_path st :
  ∃ b extra,
    ensure_file_in_context E file_path st =
      (Ok b,
       {| conversation_history := conversation_history st ++ extra;
          disk := disk st; trace := trace st |}).
Proof.
  unfold ensure_file_in_context, read_local_file. monad_unfold.
  rewrite normalize_path_total. cbn [conversation_history disk trace].
  rewrite get_file_content_from_history_run.
  destruct (first_snapshot _ _).
  - exists true, []. rewrite app_nil_r. by destruct st.
  - destruct (files (disk st) !! _) as [text|].
    + by exists true, [snapshot_message (fs_key E (Path file_path)) text].
    + exists false, []. rewrite app_nil_r. by destruct st.
Qed.

Lemma for_each_ensure_run paths st :
  ∃ extra,
    for_each paths
      (λ path, let* _ := ensure_file_in_context E path in ret tt) st =
      (Ok tt,
       {| conversation_history := conversation_history st ++ extra;
          disk := disk st; trace := trace st |}).
Proof.
  revert st; induction paths as [|p paths IH]; intros st.
  - exists []. rewrite app_nil_r. by destruct st.
  - cbn [for_each]. unfold bind at 1. unfold bind at 1.
    destruct (ensure_file_in_context_run p st) as (b & extra & ->).
    unfold ret at 1.
    destruct (IH {| conversation_history := conversation_history st ++ extra;
                    disk := disk st; trace := trace st |})
      as (extra' & ->).
    exists (extra ++ extra'). cbn. by rewrite <- app_assoc.
Qed.

(** One generation: unless the history is empty it does not raise; it
    leaves the disk as it is, logs the request, and leaves a history
    that is not empty. *)
Lemma stream_openai_response_run user_message st :
  conversation_history st ≠ [] →
  ∃ response_data history',
    stream_openai_response E user_message st =
      (Ok response_data,
       {| conversation_history := history';
          disk := disk st; trace := trace st ++ [EvGenerate] |})
    ∧ history' ≠ [].
Proof.
  intros Hne. unfold stream_openai_response.
  unfold bind at 1. unfold get_history at 1.
  destruct (conversation_history st) as [|first rest] eqn:Hh; [done|].
  unfold bind at 1. unfold set_history at 1.
  unfold bind at 1.
  match goal with
  | |- context [for_each ?l ?f ?s] =>
      destruct (for_each_ensure_run l s) as (extra & ->)
  end.
  monad_unfold. cbn [conversation_history disk trace].
  eexists _, _. split; [reflexivity|].
  unfold cleaned_history. done.
Qed.

Lemma writes_app t1 t2 : writes (t1 ++ t2) = writes t1 ++ writes t2.
Proof. unfold writes. apply flat_map_app. Qed.

Lemma verdicts_app t1 t2 : verdicts (t1 ++ t2) = verdicts t1 ++ verdicts t2.
Proof. unfold verdicts. apply flat_map_app. Qed.

Lemma generations_app t1 t2 :
  generations (t1 ++ t2) = generations t1 + generations t2.
Proof. unfold generations. by rewrite List.filter_app, length_app. Qed.

Lemma remote_reviews_app t1 t2 :
  remote_reviews (t1 ++ t2) = remote_reviews t1 + remote_reviews t2.
Proof. unfold remote_reviews. by rewrite List.filter_app, length_app. Qed.

Lemma local_verdicts_app t1 t2 :
  local_verdicts (t1 ++ t2) = local_verdicts t1 + local_verdicts t2.
Proof. unfold local_verdicts. by rewrite List.filter_app, length_app. Qed.


(** The retry loop.  From a state whose history is not empty it does not
    raise and does not touch the disk; [delta] is what it adds to the
    trace: no write, one generation per review, at most one answer per
    review; it makes at most [remaining] reviews, and exactly that many
    when it ends on NEED_CHANGES; and what it returns is either what it
    was given, or a change-set with the verdict of its review, the last
    thing done. *)
Lemma review_retry_run remaining user_input attempt response_data
    review_response st :
  conversation_history st ≠ [] →
  ∃ response_data' review_response' attempt' st' delta,
    review_retry E remaining user_input attempt response_data
                 review_response st
      = (Ok (response_data', review_response', attempt'), st')
    ∧ disk st' = disk st
    ∧ trace st' = trace st ++ delta
    ∧ writes delta = []
    ∧ attempt' = attempt + length (verdicts delta)
    ∧ length (verdicts delta) ≤ remaining
    ∧ generations delta = length (verdicts delta)
    ∧ remote_reviews delta + local_verdicts delta ≤ length (verdicts delta)
    ∧ (needs_changes review_response' = true →
       length (verdicts delta) = remaining)
    ∧ (Forall is_need_changes (verdicts delta) →
       remote_reviews delta + local_verdicts delta
       = length (verdicts delta))
    ∧ (delta = [] ∧ response_data' = response_data
       ∧ review_response' = review_response ∧ st' = st
       ∨ ∃ st_g,
           generate_review E response_data' st_g
             = (Ok review_response', st')
           ∧ last (verdicts delta) = Some (output review_response'))
    ∧ conversation_history st' ≠ [].
Proof.
  revert attempt response_data review_response st.
  induction remaining as [|r IH];
    intros attempt response_data review_response st Hne.
  - exists response_data, review_response, attempt, st, [].
    cbn. rewrite app_nil_r. repeat split; try done; try lia. by left.
  - cbn [review_retry].
    destruct (needs_changes review_response) eqn:Hnc.
    + unfold bind at 1. unfold append_history at 1.
      set (st1 := {| conversation_history := _; disk := _; trace := _ |}).
      assert (Hne1 : conversation_history st1 ≠ []).
      { unfold st1. cbn. by destruct (conversation_history st). }
      destruct (stream_openai_response_run user_input st1 Hne1)
        as (rd1 & h1 & Hs & Hh1).
      unfold bind at 1. rewrite Hs.
      set (st2 := {| conversation_history := h1; disk := _; trace := _ |}).
      destruct (generate_review_run rd1 st2) as (rv1 & evs & Hg & Hev).
      unfold bind at 1. rewrite Hg.
      destruct (IH (S attempt) rd1 rv1 (logged st2 evs) Hh1)
        as (rd' & rv' & attempt' & st' & delta & Hrun & Hdisk & Htrace
            & Hw & Hatt & Hlen & Hgen & Hans & Hend & Hall & Hlast & Hne').
      destruct Hev as (Hv & Hg0 & Hw0 & Hle & Hone).
      exists rd', rv', attempt', st', ([EvGenerate] ++ evs ++ delta).
      rewrite Hrun.
      rewrite !verdicts_app, !writes_app, !generations_app,
        !remote_reviews_app, !local_verdicts_app, !length_app, Hv, Hw, Hw0,
        Hg0.
      cbn [verdicts generations writes remote_reviews local_verdicts
           flat_map List.filter length app].
      repeat split; try done; try lia.
      * rewrite Htrace. unfold logged, st2, st1. cbn.
        by rewrite <- !app_assoc.
      * intros Hn. apply Hend in Hn. lia.
      * intros Hf. apply Forall_cons in Hf as [Ho Hf].
        specialize (Hall Hf). specialize (Hone Ho). lia.
      * right. destruct Hlast as [(-> & -> & -> & ->)|(st_g & Hgg & Hl)].
        -- exists st2. by split.
        -- exists st_g. split; [done|].
           destruct (verdicts delta) as [|o l]; [done|]. done.
    + exists response_data, review_response, attempt, st, [].
      cbn. rewrite app_nil_r.
      repeat split; try done; try lia;
        try (intros ?; congruence); try (by left).
Qed.

(** Generation, review and retries, from a state whose history is not
    empty. *)
Lemma review_phase_run user_input st :
  conversation_history st ≠ [] →
  ∃ response_data review_response attempt st' delta,
    review_phase E user_input st
      = (Ok (response_data, review_response, attempt), st')
    ∧ disk st' = disk st
    ∧ trace st' = trace st ++ delta
    ∧ writes delta = []
    ∧ attempt = length (verdicts delta)
    ∧ 1 ≤ attempt ≤ max_attempts
    ∧ generations delta = attempt
    ∧ remote_reviews delta + local_verdicts delta ≤ attempt
    ∧ (needs_changes review_response = true → attempt = max_attempts)
    ∧ (Forall is_need_changes (verdicts delta) →
       remote_reviews delta + local_verdicts delta = attempt)
    ∧ (∃ st_g,
         generate_review E response_data st_g = (Ok review_response, st'))
    ∧ last (verdicts delta) = Some (output review_response).
Proof.
  intros Hne. unfold review_phase.
  destruct (stream_openai_response_run user_input st Hne)
    as (rd1 & h1 & Hs & Hh1).
  unfold bind at 1. rewrite Hs.
  set (st2 := {| conversation_history := h1; disk := _; trace := _ |}).
  destruct (generate_review_run rd1 st2) as (rv1 & evs & Hg & Hev).
  unfold bind at 1. rewrite Hg.
  destruct (review_retry_run (max_attempts - 1) user_input 1 rd1 rv1
              (logged st2 evs) Hh1)
    as (rd' & rv' & attempt' & st' & delta & Hrun & Hdisk & Htrace
        & Hw & Hatt & Hlen & Hgen & Hans & Hend & Hall & Hlast & Hne').
  destruct Hev as (Hv & Hg0 & Hw0 & Hle & Hone).
  exists rd', rv', attempt', st', ([EvGenerate] ++ evs ++ delta).
  rewrite Hrun.
  rewrite !verdicts_app, !writes_app, !generations_app,
    !remote_reviews_app, !local_verdicts_app, !length_app, Hv, Hw, Hw0, Hg0.
  cbn [verdicts generations writes remote_reviews local_verdicts
       flat_map List.filter length app].
  unfold max_attempts in *. cbn [Nat.sub] in *.
  repeat split; try done; try lia.
  - rewrite Htrace. unfold logged, st2. cbn. by rewrite <- !app_assoc.
  - intros Hn. apply Hend in Hn. lia.
  - intros Hf. apply Forall_cons in Hf as [Ho Hf].
    specialize (Hall Hf). specialize (Hone Ho). lia.
  - destruct Hlast as [(-> & -> & -> & ->)|(st_g & Hgg & Hl)]; eauto.
  - destruct Hlast as [(-> & -> & -> & ->)|(st_g & Hgg & Hl)]; [done|].
    destruct (verdicts delta) as [|o l]; [done|]. done.
Qed.

Lemma review_phase_empty_history user_input st :
  conversation_history st = [] →
  review_phase E user_input st
  = (Raise {| exn_class := IndexError;
              exn_msg := "list index out of range" |}, st).
Proof.
  intros Hh. unfold review_phase, stream_openai_response.
  monad_unfold. by rewrite Hh.
Qed.

(** The loop over the new files writes only new files of the list. *)
Lemma for_each_create_file_writes (creates : list FileToCreate) st :
  ∃ delta,
    trace (for_each creates
             (λ file_info,
                create_file E (create_path file_info)
                            (create_content file_info)) st).2
    = trace st ++ delta
    ∧ ∀ w, w ∈ writes delta →
        ∃ file, file ∈ creates
                ∧ w = (fs_key E (Path (create_path file)),
                       create_content file).
Proof.
  revert st; induction creates as [|f creates IH]; intros st.
  - exists []. cbn. rewrite app_nil_r. split; [done|]. set_solver.
  - cbn [for_each]. unfold bind. rewrite create_file_run.
    destruct (existsb _ _).
    { exists []. cbn. rewrite app_nil_r. split; [done|]. set_solver. }
    destruct (5000000 <? _)%N.
    { exists []. cbn. rewrite app_nil_r. split; [done|]. set_solver. }
    destruct (IH (created_state E (create_path f) (create_content f) st))
      as (delta & Ht & Hw).
    exists ([EvWrite (fs_key E (Path (create_path f))) (create_content f)]
            ++ delta).
    split.
    + rewrite Ht. unfold created_state. cbn. by rewrite <- app_assoc.
    + intros w. rewrite writes_app. cbn. rewrite elem_of_cons.
      intros [->|Hin].
      * exists f. split; [apply list_elem_of_here | done].
      * destruct (Hw w Hin) as (file & ? & ?). exists file.
        split; [by apply list_elem_of_further | done].
Qed.

(** The loop over the edits writes only files of edits of the list. *)
Lemma for_each_apply_diff_edit_writes (edits : list FileToEdit) st :
  ∃ delta,
    trace (for_each edits
             (λ edit_info,
                apply_diff_edit E (edit_path edit_info)
                                (original_snippet edit_info)
                                (new_snippet edit_info)) st).2
    = trace st ++ delta
    ∧ ∀ w, w ∈ writes delta →
        ∃ edit, edit ∈ edits ∧ w.1 = fs_key E (Path (edit_path edit)).
Proof.
  revert st; induction edits as [|e edits IH]; intros st.
  - exists []. cbn. rewrite app_nil_r. split; [done|]. set_solver.
  - cbn [for_each]. unfold bind. rewrite apply_diff_edit_run.
    assert (Hskip :
      ∃ delta,
        trace (for_each edits
                 (λ edit_info,
                    apply_diff_edit E (edit_path edit_info)
                                    (original_snippet edit_info)
                                    (new_snippet edit_info)) st).2
        = trace st ++ delta
        ∧ ∀ w, w ∈ writes delta →
            ∃ edit, edit ∈ e :: edits
                    ∧ w.1 = fs_key E (Path (edit_path edit))).
    { destruct (IH st) as (delta & Ht & Hw). exists delta.
      split; [done|]. intros w Hin. destruct (Hw w Hin) as (edit & ? & ?).
      exists edit. split; [by apply list_elem_of_further | done]. }
    destruct (edit_applies _ _ _ _ _); [|exact Hskip].
    destruct (files (disk st) !! _) as [text|]; [|exact Hskip].
    destruct (IH (applied_state E (edit_path e) (original_snippet e)
                                (new_snippet e) text st))
      as (delta & Ht & Hw).
    exists ([EvWrite (fs_key E (Path (edit_path e)))
                     (replace1 (original_snippet e) (new_snippet e) text)]
            ++ delta).
    split.
    + rewrite Ht. unfold applied_state, created_state. cbn.
      by rewrite <- app_assoc.
    + intros w. rewrite writes_app. cbn. rewrite elem_of_cons.
      intros [->|Hin].
      * exists e. split; [apply list_elem_of_here | done].
      * destruct (Hw w Hin) as (edit & ? & ?). exists edit.
        split; [by apply list_elem_of_further | done].
Qed.

(** Applying a change-set writes only files of that change-set. *)
Lemma apply_changes_writes response_data st :
  ∃ delta,
    trace (apply_changes E response_data st).2 = trace st ++ delta
    ∧ ∀ w, w ∈ writes delta → write_of E response_data w.
Proof.
  unfold apply_changes, bind.
  destruct (for_each_create_file_writes
              (items (files_to_create response_data)) st)
    as (d1 & Ht1 & Hw1).
  destruct (for_each (items (files_to_create response_data)) _ st)
    as [[[]|e] st1] eqn:Hrun; cbn [snd] in *.
  - destruct (for_each_apply_diff_edit_writes
                (items (files_to_edit response_data)) st1)
      as (d2 & Ht2 & Hw2).
    exists (d1 ++ d2). split.
    + rewrite Ht2, Ht1. by rewrite <- app_assoc.
    + intros w. rewrite writes_app, elem_of_app.
      intros [Hin|Hin]; [left; by apply Hw1 | right; by apply Hw2].
  - exists d1. split; [done|]. intros w Hin. left. by apply Hw1.
Qed.

End ProgramFacts.

(** * The claims *)

Section Claims.
Context (E : Env).
Import PyStr PyPath PyStrFacts PyPathFacts.










Lemma utf8_len_replicate n c :
  utf8_len (replicate n c)
  = (N.of_nat n * (if (N_of_ascii c <? 128)%N then 1 else 2))%N.
Proof.
  induction n as [|n IH]; [done|].
  change (utf8_len (replicate (S n) c))
    with ((if (N_of_ascii c <? 128)%N then 1 else 2)
          + utf8_len (replicate n c))%N.
  rewrite IH. destruct (N_of_ascii c <? 128)%N; lia.
Qed.

(** What [create_file] does, whatever the path and the text: it raises
    and changes nothing when a part of the path starts with [~] or the
    text is longer than 5,000,000 characters; otherwise it makes sure of
    the directories above the file, writes the text under the canonical
    path of the file, leaving every other file alone, and appends a note
    and a snapshot of the text to the history. *)
Lemma create_file_guards_then_writes path text st :
  match create_file E path text st with
  | (Raise e, st') =>
      st' = st
      ∧ (e = home_error
         ∧ existsb (startswith "~") (parts (Path path)) = true
         ∨ e = size_error ∧ (5000000 < len text)%N)
  | (Ok _, st') =>
      existsb (startswith "~") (parts (Path path)) = false
      ∧ (len text ≤ 5000000)%N
      ∧ files (disk st') !! fs_key E (Path path) = Some text
      ∧ (∀ key, key ≠ fs_key E (Path path) →
           files (disk st') !! key = files (disk st) !! key)
      ∧ (∀ dir, dir ∈ with_ancestors (parent (Path path)) →
           fs_key E dir ∈ dirs (disk st'))
      ∧ (∃ note, conversation_history st'
                 = conversation_history st
                   ++ [note; snapshot_message (fs_key E (Path path)) text])
      ∧ writes (trace st') = writes (trace st)
                             ++ [(fs_key E (Path path), text)]
  end.
Proof.
  rewrite create_file_run.
  destruct (existsb _ _) eqn:Hhome; [by split; [|left]|].
  destruct (5000000 <? len text)%N eqn:Hsize.
  - split; [done|]. right. split; [done|]. by apply N.ltb_lt.
  - apply N.ltb_ge in Hsize. unfold created_state.
    cbn [conversation_history disk files dirs trace].
    repeat split; try done.
    + apply lookup_insert_eq.
    + intros key Hkey. by apply lookup_insert_ne.
    + intros dir Hdir. apply elem_of_union_r, elem_of_list_to_set.
      apply list_elem_of_fmap. eauto.
    + eauto.
    + by rewrite writes_app.
Qed.





(** C5.  In a turn nothing is written before the reviews are over: the
    generation, the reviews and the retries leave the disk as it was.
    The verdict they end with is the verdict of the last review, made
    for the change-set they end with.  Unless its output is CORRECT the
    turn ends there.  If it is CORRECT the turn goes on with one
    [apply_changes] of that change-set, and every file written belongs
    to that change-set.  (With an empty history, which no session has,
    the turn stops before the first generation and changes nothing.) *)
Theorem disk_is_written_only_after_correct_verdict
    (user_input : str) (st : State) :
  (conversation_history st = []
   ∧ ∃ e, process_turn E user_input st = (Raise e, st))
  ∨ ∃ response_data review_response attempt st' delta,
      review_phase E user_input st
        = (Ok (response_data, review_response, attempt), st')
      ∧ disk st' = disk st
      ∧ trace st' = trace st ++ delta
      ∧ writes delta = []
      ∧ (∃ st_g,
           generate_review E response_data st_g = (Ok review_response, st'))
      ∧ last (verdicts delta) = Some (output review_response)
      ∧ (output review_response ≠ Some ("CORRECT" : str) →
         process_turn E user_input st = (Ok tt, st'))
      ∧ (output review_response = Some ("CORRECT" : str) →
         process_turn E user_input st = apply_changes E response_data st'
         ∧ ∃ committed,
             trace (process_turn E user_input st).2 = trace st' ++ committed
             ∧ ∀ w, w ∈ writes committed → write_of E response_data w).
Proof.
  destruct (decide (conversation_history st = [])) as [Hempty|Hne].
  { left. split; [done|]. eexists. unfold process_turn, bind.
    by rewrite review_phase_empty_history. }
  right.
  destruct (review_phase_run E user_input st Hne)
    as (rd & rv & attempt & st' & delta & Hrun & Hdisk & Htrace & Hw & _
        & _ & _ & _ & _ & _ & Hrev & Hlast).
  exists rd, rv, attempt, st', delta.
  assert (Hturn : process_turn E user_input st
                  = if is_correct rv then apply_changes E rd st'
                    else (Ok tt, st')).
  { unfold process_turn, bind. rewrite Hrun. by destruct (is_correct rv). }
  repeat split; try done.
  - intros Hout. rewrite Hturn. unfold is_correct.
    by rewrite bool_decide_eq_false_2.
  - rewrite Hturn. unfold is_correct. by rewrite bool_decide_eq_true_2.
  - rewrite Hturn. unfold is_correct. rewrite bool_decide_eq_true_2 by done.
    apply apply_changes_writes.
Qed.

End Claims.

(** * Counterexamples and instances *)



(** The test of [normalize_path] for parent-directory parts comes after
    [resolve] has removed them: such a path is normalized, not refused. *)
Example parent_reference_is_resolved :
  normalize_path plain_env "../etc/passwd" = Ok ("/etc/passwd" : str).
Proof. reflexivity. Qed.

(** The example of the specification: [foo] is ambiguous in a file that
    holds it on two lines, and the whole text of the file is not; after
    the edit the file holds the new snippet. *)
Example foo_on_two_lines :
  edit_issue plain_env (conversation_history foo_foo_state)
    {| edit_path := "a.txt"; original_snippet := "foo"; new_snippet := "x" |}
  = Ok (Some ("Multiple occurrences (2) of snippet in 'a.txt'." : str))
  ∧ edit_issue plain_env (conversation_history foo_foo_state)
      {| edit_path := "a.txt";
         original_snippet := "foo" ++ NL ++ "foo" ++ NL;
         new_snippet := "bar" |}
    = Ok None
  ∧ files (disk (apply_diff_edit plain_env "a.txt"
                   ("foo" ++ NL ++ "foo" ++ NL) "bar" foo_foo_state).2)
      !! ("/w/a.txt" : str)
    = Some ("bar" : str).
Proof. repeat split; vm_compute; reflexivity. Qed.







(** C7: the size guard of [create_file] compares the number of characters,
    not the number of bytes.  This text takes 5,200,000 bytes in UTF-8 and
    has 2,600,000 characters; [create_file] takes it and writes it. *)
Theorem create_file_accepts_oversized_utf8 (st : State) :
  (5000000 < PyStr.utf8_len big_text)%N
  ∧ PyStr.len big_text = 2600000%N
  ∧ create_file plain_env "big.txt" big_text st
    = (Ok tt, created_state plain_env "big.txt" big_text st)
  ∧ files (disk (created_state plain_env "big.txt" big_text st))
      !! ("/w/big.txt" : str)
    = Some big_text.
Proof.
  assert (Hlen : PyStr.len big_text = 2600000%N).
  { unfold PyStr.len, big_text. rewrite length_replicate. apply N2Nat.id. }
  split; [|split; [exact Hlen|split]].
  - unfold big_text. rewrite utf8_len_replicate, N2Nat.id. reflexivity.
  - rewrite create_file_run, Hlen. reflexivity.
  - unfold created_state. cbn [disk files]. apply lookup_insert_eq.
Qed.




(** C5 at work: the turn of the two edits, up to the end of the reviews. *)
Lemma disk_is_written_only_after_correct_verdict_witness :
  ∃ st',
    (review_phase (scenario_env two_edits "CORRECT") "please edit"
                  a_txt_state).2 = st'
    ∧ disk st' = disk a_txt_state.
Proof.
  destruct (disk_is_written_only_after_correct_verdict
              (scenario_env two_edits "CORRECT") "please edit" a_txt_state)
    as [[Hempty _]|(rd & rv & attempt & st' & delta & Hrun & Hdisk & _)].
  { discriminate Hempty. }
  exists st'. rewrite Hrun. split; [reflexivity | exact Hdisk].
Defined.

(** * Further properties *)

(** ** More facts about paths *)

Module MorePathFacts.
Import PyStr PyPath PyStrFacts PyPathFacts.

Lemma walk_step_good stack name :
  Forall (λ s, good_seg s = true) stack → "/"%char ∉ name →
  Forall (λ s, good_seg s = true) (walk_step stack name).
Proof.
  intros Hs Hn. unfold walk_step.
  destruct (bool_decide (name = [])) eqn:H1; [done|].
  destruct (bool_decide (name = ".")) eqn:H2; [done|].
  cbn [orb].
  destruct (bool_decide (name = "..")) eqn:H3.
  - destruct stack; [done|]. by inversion Hs.
  - constructor; [|done]. apply good_seg_spec.
    apply bool_decide_eq_false in H1, H2, H3. done.
Qed.

Lemma walk_good names stack :
  Forall (λ s, good_seg s = true) stack →
  Forall (λ s : str, "/"%char ∉ s) names →
  Forall (λ s, good_seg s = true) (fold_left walk_step names stack).
Proof.
  revert stack; induction names as [|n names IH]; intros stack Hs Hn; simpl.
  - done.
  - inversion Hn; subst. apply IH; [|done]. by apply walk_step_good.
Qed.

(** The segments [resolve] leaves are those of a canonical path. *)
Lemma resolve_good (E : Env) path_str :
  Forall (λ s, good_seg s = true) (segs (resolve (cwd E) (Path path_str))).
Proof.
  unfold resolve. cbn [segs]. apply Forall_rev, walk_good.
  - destruct (root (Path path_str)); [|done].
    apply Forall_rev, cwd_good.
  - destruct (Path_parsed path_str) as [_ Hp].
    eapply Forall_impl; [exact Hp|]. by intros s [_ ?].
Qed.

Lemma fs_key_canonical (E : Env) path_str :
  fs_key E (Path path_str)
  = "/" ++ join "/" (segs (resolve (cwd E) (Path path_str))).
Proof. reflexivity. Qed.

Lemma fs_key_of_canonical (E : Env) (l : list str) :
  Forall (λ s, good_seg s = true) l →
  fs_key E (Path ("/" ++ join "/" l)) = "/" ++ join "/" l.
Proof.
  intros Hl. unfold fs_key.
  rewrite Path_of_canonical, resolve_canonical by done. reflexivity.
Qed.

(** Normalizing twice is normalizing once. *)
Lemma fs_key_idem (E : Env) path_str :
  fs_key E (Path (fs_key E (Path path_str))) = fs_key E (Path path_str).
Proof.
  rewrite fs_key_canonical. apply fs_key_of_canonical, resolve_good.
Qed.

End MorePathFacts.

(** ** More facts about the program *)

Section Further.
Context (E : Env).
Import PyStr PyPath PyStrFacts PyPathFacts MorePathFacts.

(** *** Paths *)


(** *** Files and the conversation *)

Lemma nul_within_spec budget text :
  nul_within budget text = true
  ↔ ∃ pre post, text = pre ++ "000"%char :: post
                ∧ (utf8_len pre < budget)%N.
Proof.
  revert budget; induction text as [|a text IH]; intros budget; simpl.
  - split; [done|]. intros (pre & post & H & _). by destruct pre.
  - destruct (budget =? 0)%N eqn:Hb.
    + apply N.eqb_eq in Hb. split; [done|].
      intros (pre & post & _ & Hlt). lia.
    + apply N.eqb_neq in Hb.
      destruct (N_of_ascii a =? 0)%N eqn:Ha.
      * apply N.eqb_eq in Ha. split; [intros _|done].
        exists [], text. split; [|simpl; lia].
        simpl. f_equal. rewrite <- (ascii_N_embedding a), Ha. reflexivity.
      * apply N.eqb_neq in Ha. rewrite IH. split.
        -- intros (pre & post & -> & Hlt). exists (a :: pre), post.
           split; [done|]. simpl.
           destruct (N_of_ascii a <? 128)%N; lia.
        -- intros (pre & post & Heq & Hlt).
           destruct pre as [|b pre].
           { simpl in Heq. injection Heq as -> _. done. }
           simpl in Heq. injection Heq as -> ->.
           exists pre, post. split; [done|]. simpl in Hlt.
           destruct (N_of_ascii b <? 128)%N; lia.
Qed.

(** X2.  [is_binary_file] takes a file for binary exactly when its text
    has the character U+0000 at a place that begins among the first 1024
    bytes of the UTF-8 encoding: a zero byte further on is not seen. *)
Theorem is_binary_file_iff_early_nul (text : str) :
  is_binary_file text = true
  ↔ ∃ pre post, text = pre ++ "000"%char :: post
                ∧ (utf8_len pre < 1024)%N.
Proof. apply nul_within_spec. Qed.


(** [ensure_file_in_context], case by case. *)
Lemma ensure_file_in_context_eq file_path st :
  ensure_file_in_context E file_path st =
    let key := fs_key E (Path file_path) in
    match first_snapshot (file_marker_of key) (conversation_history st) with
    | Some _ => (Ok true, st)
    | None =>
        match files (disk st) !! key with
        | Some text =>
            (Ok true,
             {| conversation_history :=
                  conversation_history st ++ [snapshot_message key text];
                disk := disk st; trace := trace st |})
        | None => (Ok false, st)
        end
    end.
Proof.
  unfold ensure_file_in_context, read_local_file. monad_unfold.
  rewrite normalize_path_total. cbn [conversation_history disk trace].
  rewrite get_file_content_from_history_run, fs_key_idem. cbn zeta.
  destruct (first_snapshot _ _); [done|].
  by destruct (files (disk st) !! _).
Qed.

Lemma first_snapshot_added key text history :
  first_snapshot (file_marker_of key) history = None →
  first_snapshot (file_marker_of key) (history ++ [snapshot_message key text])
  = Some text.
Proof.
  induction history as [|m history IH]; intros Hn.
  - apply first_snapshot_here.
  - cbn [app first_snapshot] in *.
    destruct (is_system m && contains (file_marker_of key) (content m)).
    + destruct (split1 _ (content m)) as [|? [|? ?]]; try done; by apply IH.
    + by apply IH.
Qed.



Lemma extended_extended st a b :
  extended (extended st a) b = extended st (a ++ b).
Proof. unfold extended. cbn. by rewrite <- app_assoc. Qed.

Lemma extended_nil st : extended st [] = st.
Proof. destruct st. unfold extended. cbn. by rewrite app_nil_r. Qed.

(** The loop of [add_directory_to_conversation] over any list of files:
    what it appends are snapshots of files of the disk that it does not
    skip and that had none, and afterwards each file it does not skip has
    one, if it is on the disk. *)
Lemma for_each_walked_run (entries : list (str * str * str)) st :
  ∃ extra,
    for_each entries
      (λ entry,
         let '(full_path, file, text) := entry in
         if startswith "." file
            || bool_decide (file ∈ excluded_files)
            || bool_decide (lower (suffix file) ∈ excluded_extensions)
         then ret tt
         else if (5000000 <? utf8_len text)%N then ret tt
         else if is_binary_file text then ret tt
         else let* _ := ensure_file_in_context E full_path in ret tt) st
    = (Ok tt, extended st extra)
    ∧ (∀ m, m ∈ extra →
         ∃ full_path file text0 text,
           (full_path, file, text0) ∈ entries
           ∧ wanted_name file = true
           ∧ (5000000 <? utf8_len text0)%N = false
           ∧ is_binary_file text0 = false
           ∧ m = snapshot_message (fs_key E (Path full_path)) text
           ∧ files (disk st) !! fs_key E (Path full_path) = Some text
           ∧ first_snapshot (file_marker_of (fs_key E (Path full_path)))
               (conversation_history st) = None)
    ∧ (∀ full_path file text0,
         (full_path, file, text0) ∈ entries →
         wanted_name file = true →
         (5000000 <? utf8_len text0)%N = false →
         is_binary_file text0 = false →
         is_Some (files (disk st) !! fs_key E (Path full_path)) →
         is_Some (first_snapshot
                    (file_marker_of (fs_key E (Path full_path)))
                    (conversation_history st ++ extra))).
Proof.
  revert st; induction entries as [|[[full_path file] text0] entries IH];
    intros st.
  - exists []. rewrite extended_nil. split; [done|].
    split; [intros m Hm | intros ? ? ? Hin]; by apply elem_of_nil in Hm || by apply elem_of_nil in Hin.
  - cbn [for_each]. unfold bind at 1.
    assert (Hw : startswith "." file
                 || bool_decide (file ∈ excluded_files)
                 || bool_decide (lower (suffix file) ∈ excluded_extensions)
                 = negb (wanted_name file)).
    { unfold wanted_name. by rewrite !negb_andb, !negb_involutive. }
    rewrite Hw.
    (* the entries that are skipped *)
    assert (Hskip :
      wanted_name file && negb (5000000 <? utf8_len text0)%N
        && negb (is_binary_file text0) = false →
      ∀ st1 : State, st1 = st →
      (if negb (wanted_name file) then ret tt
       else if (5000000 <? utf8_len text0)%N then ret tt
       else if is_binary_file text0 then ret tt
       else let* _ := ensure_file_in_context E full_path in ret tt) st1
      = (Ok tt, st)).
    { intros Hb st1 ->. destruct (wanted_name file); [|done].
      destruct (5000000 <? utf8_len text0)%N; [done|].
      by destruct (is_binary_file text0). }
    destruct (wanted_name file && negb (5000000 <? utf8_len text0)%N
              && negb (is_binary_file text0)) eqn:Hpass.
    + apply andb_true_iff in Hpass as [[Hwant Hsize]%andb_true_iff Hbin].
      apply negb_true_iff in Hsize, Hbin.
      rewrite Hwant, Hsize, Hbin. cbn [negb].
      unfold bind at 1. rewrite ensure_file_in_context_eq. cbn zeta.
      set (key := fs_key E (Path full_path)).
      destruct (first_snapshot (file_marker_of key) (conversation_history st))
        as [old|] eqn:Hold.
      * unfold ret at 1.
        destruct (IH st) as (extra & -> & Hsound & Hcomplete).
        exists extra. split; [done|]. split.
        -- intros m Hm.
           destruct (Hsound m Hm) as (fp & f & t0 & t & Hin & ?).
           exists fp, f, t0, t. split; [by apply list_elem_of_further | done].
        -- intros fp f t0 Hin Hwf Hsf Hbf Hon.
           apply elem_of_cons in Hin as [Heq|Hin].
           ++ injection Heq as -> -> ->. fold key.
              erewrite first_snapshot_app by exact Hold. done.
           ++ by eapply Hcomplete.
      * destruct (files (disk st) !! key) as [text|] eqn:Hfile.
        -- unfold ret at 1.
           change {| conversation_history :=
                       conversation_history st ++ [snapshot_message key text];
                     disk := disk st; trace := trace st |}
             with (extended st [snapshot_message key text]).
           destruct (IH (extended st [snapshot_message key text]))
             as (extra & -> & Hsound & Hcomplete).
           exists (snapshot_message key text :: extra).
           rewrite extended_extended. split; [done|]. split.
           ++ intros m Hm. apply elem_of_cons in Hm as [->|Hm].
              ** exists full_path, file, text0, text.
                 split; [apply list_elem_of_here | done].
              ** destruct (Hsound m Hm)
                   as (fp & f & t0 & t & Hin & ? & ? & ? & ? & ? & Hnone).
                 exists fp, f, t0, t.
                 split; [by apply list_elem_of_further|].
                 repeat (split; [done|]).
                 cbn [extended conversation_history] in Hnone.
                 destruct (first_snapshot
                             (file_marker_of (fs_key E (Path fp)))
                             (conversation_history st))
                   as [x|] eqn:Hx; [|done].
                 by erewrite first_snapshot_app in Hnone by exact Hx.
           ++ intros fp f t0 Hin Hwf Hsf Hbf Hon.
              apply elem_of_cons in Hin as [Heq|Hin].
              ** injection Heq as -> -> ->. fold key.
                 change (conversation_history st
                         ++ snapshot_message key text :: extra)
                   with (conversation_history st
                         ++ [snapshot_message key text] ++ extra).
                 rewrite app_assoc.
                 erewrite first_snapshot_app; [done|].
                 by apply first_snapshot_added.
              ** specialize (Hcomplete fp f t0 Hin Hwf Hsf Hbf Hon).
                 cbn [extended conversation_history] in Hcomplete.
                 by rewrite <- app_assoc in Hcomplete.
        -- unfold ret at 1.
           destruct (IH st) as (extra & -> & Hsound & Hcomplete).
           exists extra. split; [done|]. split.
           ++ intros m Hm.
              destruct (Hsound m Hm) as (fp & f & t0 & t & Hin & ?).
              exists fp, f, t0, t.
              split; [by apply list_elem_of_further | done].
           ++ intros fp f t0 Hin Hwf Hsf Hbf Hon.
              apply elem_of_cons in Hin as [Heq|Hin].
              ** injection Heq as -> -> ->. fold key in Hon.
                 rewrite Hfile in Hon. by destruct Hon.
              ** by eapply Hcomplete.
    + rewrite (Hskip eq_refl st eq_refl).
      destruct (IH st) as (extra & -> & Hsound & Hcomplete).
      exists extra. split; [done|]. split.
      * intros m Hm.
        destruct (Hsound m Hm) as (fp & f & t0 & t & Hin & ?).
        exists fp, f, t0, t. split; [by apply list_elem_of_further | done].
      * intros fp f t0 Hin Hwf Hsf Hbf Hon.
        apply elem_of_cons in Hin as [Heq|Hin].
        -- injection Heq as -> -> ->.
           by rewrite Hwf, Hsf, Hbf in Hpass.
        -- by eapply Hcomplete.
Qed.





(** [try_handle_add_command] never raises; it touches the history only,
    to which it appends snapshots of files of the disk. *)
Lemma try_handle_add_command_run (user_input : str) (st : State) :
  ∃ extra,
    try_handle_add_command E user_input st
    = (Ok (startswith "/add " (lower (strip user_input))), extended st extra)
    ∧ (startswith "/add " (lower (strip user_input)) = false → extra = [])
    ∧ ∀ m, m ∈ extra →
        ∃ key text,
          m = snapshot_message key text
          ∧ files (disk st) !! key = Some text.
Proof.
  unfold try_handle_add_command. cbn zeta.
  destruct (startswith "/add " (lower (strip user_input))) eqn:Hcmd.
  - unfold bind at 1, try_except. unfold bind at 1, lift at 1.
    rewrite normalize_path_total.
    set (key := fs_key E (Path (strip (drop (length ("/add " : str)) user_input)))).
    unfold bind at 1, isdir at 1.
    destruct (bool_decide (key ∈ dirs (disk st))).
    + unfold add_directory_to_conversation.
      destruct (for_each_walked_run (walked_files key (disk st)) st)
        as (extra & -> & Hsound & _).
      exists extra. unfold ret. split; [done|]. split; [done|].
      intros m Hm.
      destruct (Hsound m Hm)
        as (fp & f & t0 & t & _ & _ & _ & _ & -> & Hfile & _).
      by eexists _, _.
    + unfold bind at 1, read_local_file at 1.
      unfold key at 1. rewrite fs_key_idem. fold key.
      destruct (files (disk st) !! key) as [text|] eqn:Hfile.
      * exists [snapshot_message key text]. unfold ret, append_history.
        split; [done|]. split; [done|].
        intros m ->%list_elem_of_singleton. by eexists _, _.
      * exists []. rewrite extended_nil. cbn. unfold ret.
        split; [done|]. split; [done|]. by intros m ?%elem_of_nil.
  - exists []. rewrite extended_nil. unfold ret. split; [done|].
    split; [done|]. by intros m ?%elem_of_nil.
Qed.



(** *** The history that a generation request is made from *)

Lemma is_snapshot_of_file_snapshot key m :
  is_snapshot_of key m = true → is_file_snapshot m = true.
Proof.
  unfold is_snapshot_of, is_file_snapshot.
  intros [-> Hc]%andb_true_iff. cbn [andb].
  unfold file_marker_of in Hc. rewrite <- !app_assoc in Hc.
  by apply contains_app_l in Hc.
Qed.

Lemma user_or_assistant_not_system m :
  is_user_or_assistant m = true → is_system m = false.
Proof.
  unfold is_user_or_assistant, is_system.
  intros [H|H]%orb_true_iff; apply bool_decide_eq_true in H;
    rewrite H; reflexivity.
Qed.

Lemma not_system_not_snapshot key m :
  is_system m = false → is_snapshot_of key m = false.
Proof. unfold is_snapshot_of. by intros ->. Qed.

Lemma first_snapshot_cons marker m l1 l2 :
  first_snapshot marker l1 = first_snapshot marker l2 →
  first_snapshot marker (m :: l1) = first_snapshot marker (m :: l2).
Proof. intros H. cbn [first_snapshot]. by rewrite H. Qed.

(** Messages that are no snapshot of the file can be left out. *)
Lemma first_snapshot_filter key (keep : Message → bool) history :
  (∀ m, is_snapshot_of key m = true → keep m = true) →
  first_snapshot (file_marker_of key) (List.filter keep history)
  = first_snapshot (file_marker_of key) history.
Proof.
  intros Hkeep. induction history as [|m history IH]; [done|].
  cbn [List.filter]. destruct (keep m) eqn:Hm.
  - by apply first_snapshot_cons.
  - rewrite IH. symmetry. apply first_snapshot_skip.
    destruct (is_snapshot_of key m) eqn:Hs; [|done].
    apply Hkeep in Hs. congruence.
Qed.

Lemma first_snapshot_app_others key history others :
  Forall (λ m, is_snapshot_of key m = false) others →
  first_snapshot (file_marker_of key) (history ++ others)
  = first_snapshot (file_marker_of key) history.
Proof.
  intros Ho. induction history as [|m history IH].
  - by apply first_snapshot_none.
  - by apply first_snapshot_cons.
Qed.

Lemma Forall_removelast {A} (Q : A → Prop) (l : list A) :
  Forall Q l → Forall Q (removelast l).
Proof.
  induction 1 as [|x l Hx Hl IH]; [done|].
  cbn [removelast]. destruct l; [done|]. by constructor.
Qed.

(** Cleaning the history changes the answer of no lookup. *)
Lemma first_snapshot_cleaned key first rest user_message :
  first_snapshot (file_marker_of key) (cleaned_history first rest user_message)
  = first_snapshot (file_marker_of key) (first :: rest).
Proof.
  unfold cleaned_history. cbn zeta.
  set (pairs := List.filter
                  (λ msg, negb (is_file_snapshot msg)
                          && is_user_or_assistant msg) rest).
  set (kept := if Nat.odd (length pairs) then removelast pairs else pairs).
  change ([first] ++ List.filter is_file_snapshot rest ++ kept
          ++ [{| role := "user"; content := user_message |}])
    with (first :: (List.filter is_file_snapshot rest ++ kept
                    ++ [{| role := "user"; content := user_message |}])).
  apply first_snapshot_cons.
  rewrite first_snapshot_app_others.
  - apply first_snapshot_filter, is_snapshot_of_file_snapshot.
  - apply Forall_app. split; [|by repeat constructor].
    assert (Hp : Forall (λ m, is_snapshot_of key m = false) pairs).
    { apply Forall_forall. intros m Hm.
      apply list_elem_of_In, filter_In in Hm as [_ Hm].
      apply andb_true_iff in Hm as [_ Hm].
      by apply not_system_not_snapshot, user_or_assistant_not_system. }
    unfold kept. destruct (Nat.odd (length pairs)); [|done].
    by apply Forall_removelast.
Qed.

(** The loop over the guessed paths appends snapshots of files of the
    disk. *)
Lemma for_each_ensure_snapshots paths st :
  ∃ extra,
    for_each paths
      (λ path, let* _ := ensure_file_in_context E path in ret tt) st
    = (Ok tt, extended st extra)
    ∧ ∀ m, m ∈ extra →
        ∃ key text, m = snapshot_message key text
                    ∧ files (disk st) !! key = Some text.
Proof.
  revert st; induction paths as [|p paths IH]; intros st.
  - exists []. rewrite extended_nil. split; [done|]. by intros m ?%elem_of_nil.
  - cbn [for_each]. unfold bind at 1. unfold bind at 1.
    rewrite ensure_file_in_context_eq. cbn zeta.
    destruct (first_snapshot _ _).
    + unfold ret at 1. destruct (IH st) as (extra & -> & H). by exists extra.
    + destruct (files (disk st) !! fs_key E (Path p)) as [text|] eqn:Hf.
      * unfold ret at 1.
        change {| conversation_history :=
                    conversation_history st
                    ++ [snapshot_message (fs_key E (Path p)) text];
                  disk := disk st; trace := trace st |}
          with (extended st [snapshot_message (fs_key E (Path p)) text]).
        destruct (IH (extended st [snapshot_message (fs_key E (Path p)) text]))
          as (extra & -> & H).
        exists (snapshot_message (fs_key E (Path p)) text :: extra).
        rewrite extended_extended. split; [done|].
        intros m [->|Hm]%elem_of_cons; [by eexists _, _ | by apply H].
      * unfold ret at 1. destruct (IH st) as (extra & -> & H). by exists extra.
Qed.

(** One generation, from a history that is not empty: the history is
    cleaned, snapshots of the files the message names are appended, and
    the request is made from the result. *)
Lemma stream_openai_response_eq user_message st first rest :
  conversation_history st = first :: rest →
  ∃ extra,
    stream_openai_response E user_message st
    = (Ok (response_of_stream E
             (generation_stream E (trace st)
                (cleaned_history first rest user_message ++ extra))),
       {| conversation_history :=
            cleaned_history first rest user_message ++ extra;
          disk := disk st;
          trace := trace st ++ [EvGenerate] |})
    ∧ ∀ m, m ∈ extra →
        ∃ key text, m = snapshot_message key text
                    ∧ files (disk st) !! key = Some text.
Proof.
  intros Hh. unfold stream_openai_response.
  unfold bind at 1. unfold get_history at 1. rewrite Hh.
  unfold bind at 1. unfold set_history at 1.
  unfold bind at 1.
  match goal with
  | |- context [for_each ?l ?f ?s] =>
      destruct (for_each_ensure_snapshots l s) as (extra & -> & Hextra)
  end.
  exists extra. split; [|exact Hextra].
  monad_unfold. reflexivity.
Qed.

(** A system message that is no file snapshot, appended to a history
    that is not empty, is dropped by the cleaning. *)
Lemma stream_openai_response_plain_message
    (user_message : str) (st : State) (m : Message) :
  conversation_history st ≠ [] →
  role m = "system" →
  contains "Content of file '" (content m) = false →
  stream_openai_response E user_message (extended st [m])
  = stream_openai_response E user_message st.
Proof.
  intros Hne Hrole Hplain.
  destruct (conversation_history st) as [|first rest] eqn:Hh; [done|].
  unfold stream_openai_response.
  unfold bind at 1. unfold get_history at 1.
  cbn [extended conversation_history]. rewrite Hh.
  change ((first :: rest) ++ [m]) with (first :: (rest ++ [m])).
  symmetry. unfold bind at 1. unfold get_history at 1. rewrite Hh.
  symmetry.
  assert (Hc : cleaned_history first (rest ++ [m]) user_message
               = cleaned_history first rest user_message).
  { unfold cleaned_history. cbn zeta. rewrite !List.filter_app.
    cbn [List.filter].
    assert (is_file_snapshot m = false) as ->.
    { unfold is_file_snapshot. by rewrite Hplain, andb_false_r. }
    assert (is_user_or_assistant m = false) as ->.
    { unfold is_user_or_assistant. by rewrite Hrole. }
    cbn [negb andb]. by rewrite !app_nil_r. }
  rewrite Hc. reflexivity.
Qed.

(** X6.  The cleaning at the start of [stream_openai_response] drops every
    system message after the first that is no file snapshot, such as the
    notes of file operations: with such a message appended to a history
    that is not empty, the call sends the same request, returns the same
    response and leaves the same state as without it. *)
Theorem generation_forgets_plain_system_messages
    (user_message : str) (st : State) (m : Message) :
  conversation_history st ≠ [] →
  role m = "system" →
  contains "Content of file '" (content m) = false →
  stream_openai_response E user_message (extended st [m])
  = stream_openai_response E user_message st.
Proof. apply stream_openai_response_plain_message. Qed.

(** X7.  The feedback that the retry loop records never reaches the
    generation model.  When the verdict is NEED_CHANGES and the text of the
    feedback does not happen to hold the marker of a file snapshot, a
    round of the loop does exactly what a generation, a review and the
    rest of the loop do from the state in which no feedback was
    recorded. *)
Theorem retry_feedback_never_reaches_the_model
    (remaining : nat) (user_input : str) (attempt : nat)
    (response_data review_response : AssistantResponse) (st : State) :
  conversation_history st ≠ [] →
  needs_changes review_response = true →
  contains "Content of file '" (feedback_content attempt review_response)
    = false →
  review_retry E (S remaining) user_input attempt response_data
               review_response st
  = (let* response_data := stream_openai_response E user_input in
     let* review_response := generate_review E response_data in
     review_retry E remaining user_input (S attempt)
                  response_data review_response) st.
Proof.
  intros Hne Hnc Hplain. cbn [review_retry]. rewrite Hnc.
  unfold bind at 1. unfold append_history at 1.
  change {| conversation_history :=
              conversation_history st
              ++ [system_message (feedback_content attempt review_response)];
            disk := disk st; trace := trace st |}
    with (extended st
            [system_message (feedback_content attempt review_response)]).
  unfold bind at 1. unfold bind at 3.
  by rewrite stream_openai_response_plain_message.
Qed.


(** *** Filters *)

Lemma filter_filter_same {A} (f : A → bool) (l : list A) :
  List.filter f (List.filter f l) = List.filter f l.
Proof.
  induction l as [|x l IH]; [done|]. cbn [List.filter].
  destruct (f x) eqn:Hx; [|done]. cbn [List.filter]. by rewrite Hx, IH.
Qed.

Lemma filter_none {A} (f : A → bool) (l : list A) :
  Forall (λ x, f x = false) l → List.filter f l = [].
Proof. induction 1 as [|x l Hx _ IH]; [done|]. cbn. by rewrite Hx. Qed.

Lemma filter_all {A} (f : A → bool) (l : list A) :
  Forall (λ x, f x = true) l → List.filter f l = l.
Proof. induction 1 as [|x l Hx _ IH]; [done|]. cbn. by rewrite Hx, IH. Qed.

Lemma Forall_filter_true {A} (f : A → bool) (l : list A) :
  Forall (λ x, f x = true) (List.filter f l).
Proof.
  apply Forall_forall. intros x Hx.
  by apply list_elem_of_In, filter_In in Hx as [_ ?].
Qed.

(** *** Properties of the history that every step keeps *)

Section Keeps.
Context (P : list Message → Prop).
Hypothesis P_app :
  ∀ h extra, Forall (λ m, is_system m = true) extra → P h → P (h ++ extra).
Hypothesis P_clean :
  ∀ first rest user_message,
    P (first :: rest) → P (cleaned_history first rest user_message).

Lemma keeps_ret {A} (a : A) : keeps P (ret a).
Proof. by intros st. Qed.

Lemma keeps_bind {A B} (c : M A) (k : A → M B) :
  keeps P c → (∀ a, keeps P (k a)) → keeps P (bind c k).
Proof.
  intros Hc Hk st HP. unfold bind. specialize (Hc st HP).
  destruct (c st) as [[a|e] st']; [by apply Hk | done].
Qed.

Lemma keeps_for_each {A} (l : list A) (body : A → M unit) :
  (∀ x, keeps P (body x)) → keeps P (for_each l body).
Proof.
  intros Hb. induction l as [|x l IH]; [apply keeps_ret|].
  cbn [for_each]. apply keeps_bind; [apply Hb | by intros _].
Qed.

Lemma keeps_append text : keeps P (append_history (system_message text)).
Proof. intros st HP. cbn. apply P_app; [by repeat constructor | done]. Qed.

Lemma snapshots_are_system (d : Disk) (extra : list Message) :
  (∀ m, m ∈ extra →
     ∃ key text, m = snapshot_message key text ∧ files d !! key = Some text) →
  Forall (λ m, is_system m = true) extra.
Proof.
  intros H. apply Forall_forall. intros m Hm.
  by destruct (H m Hm) as (key & text & -> & _).
Qed.

Lemma keeps_stream_openai_response user_message :
  keeps P (stream_openai_response E user_message).
Proof.
  intros st HP.
  destruct (conversation_history st) as [|first rest] eqn:Hh.
  - unfold stream_openai_response, bind, get_history. rewrite Hh.
    unfold raise. cbn [snd]. by rewrite Hh.
  - destruct (stream_openai_response_eq user_message st first rest Hh)
      as (extra & -> & Hextra).
    cbn [snd conversation_history].
    apply P_app; [by eapply snapshots_are_system | by apply P_clean].
Qed.

Lemma keeps_generate_review response_data :
  keeps P (generate_review E response_data).
Proof.
  intros st HP.
  destruct (generate_review_run E response_data st) as (v & evs & -> & _).
  done.
Qed.

Lemma keeps_review_retry remaining user_input attempt response_data
    review_response :
  keeps P (review_retry E remaining user_input attempt response_data
             review_response).
Proof.
  revert attempt response_data review_response.
  induction remaining as [|r IH]; intros attempt response_data review_response.
  - apply keeps_ret.
  - cbn [review_retry]. destruct (needs_changes review_response).
    + apply keeps_bind; [apply keeps_append|]. intros _.
      apply keeps_bind; [apply keeps_stream_openai_response|]. intros rd.
      apply keeps_bind; [apply keeps_generate_review|]. intros rr.
      apply IH.
    + apply keeps_ret.
Qed.

Lemma keeps_review_phase user_input : keeps P (review_phase E user_input).
Proof.
  unfold review_phase.
  apply keeps_bind; [apply keeps_stream_openai_response|]. intros rd.
  apply keeps_bind; [apply keeps_generate_review|]. intros rr.
  apply keeps_review_retry.
Qed.

Lemma keeps_create_file path text : keeps P (create_file E path text).
Proof.
  intros st HP. rewrite create_file_run.
  destruct (existsb _ _); [done|]. destruct (5000000 <? _)%N; [done|].
  cbn. apply P_app; [by repeat constructor | done].
Qed.

Lemma keeps_apply_diff_edit path original new :
  keeps P (apply_diff_edit E path original new).
Proof.
  intros st HP. rewrite apply_diff_edit_run.
  destruct (edit_applies E path original new st); [|done].
  destruct (files (disk st) !! _); [|done].
  cbn. apply P_app; [by repeat constructor|].
  apply P_app; [by repeat constructor | done].
Qed.

Lemma keeps_apply_changes response_data :
  keeps P (apply_changes E response_data).
Proof.
  unfold apply_changes. apply keeps_bind.
  - apply keeps_for_each. intros x. apply keeps_create_file.
  - intros _. apply keeps_for_each. intros x. apply keeps_apply_diff_edit.
Qed.

Lemma keeps_process_turn user_input : keeps P (process_turn E user_input).
Proof.
  unfold process_turn. apply keeps_bind; [apply keeps_review_phase|].
  intros [[rd rr] attempt]. destruct (is_correct rr).
  - apply keeps_apply_changes.
  - apply keeps_ret.
Qed.

Lemma keeps_try_handle_add_command user_input :
  keeps P (try_handle_add_command E user_input).
Proof.
  intros st HP.
  destruct (try_handle_add_command_run user_input st)
    as (extra & -> & _ & Hextra).
  cbn. apply P_app; [by eapply snapshots_are_system | done].
Qed.

Lemma keeps_main_loop inputs : keeps P (main_loop E inputs).
Proof.
  induction inputs as [|line inputs IH]; [apply keeps_ret|].
  cbn [main_loop]. cbn zeta.
  destruct (bool_decide (strip line = [])); [done|].
  destruct (bool_decide (lower (strip line) ∈ _)); [apply keeps_ret|].
  apply keeps_bind; [apply keeps_try_handle_add_command|].
  intros [|]; [done|].
  apply keeps_bind; [apply keeps_process_turn | by intros _].
Qed.

Lemma keeps_load_tech_stack : keeps P (load_tech_stack E).
Proof.
  intros st HP. unfold load_tech_stack, read_local_file. monad_unfold.
  destruct (files (disk st) !! _); [|done].
  cbn. apply P_app; [by repeat constructor | done].
Qed.

Lemma keeps_main inputs : keeps P (main E inputs).
Proof.
  unfold main. apply keeps_bind; [apply keeps_load_tech_stack|].
  intros _. apply keeps_main_loop.
Qed.

End Keeps.

(** X8.  Once the history holds a snapshot for a path, nothing in a
    session replaces it: after the start-up and any sequence of inputs
    (commands that add the file again, turns with their retries, commits
    that rewrite the file) the lookup for the path returns the same
    text. *)
Theorem snapshot_once_recorded_is_never_replaced
    (inputs : list str) (st : State) (path text : str) :
  get_file_content_from_history E path (conversation_history st)
    = Ok (Some text) →
  get_file_content_from_history E path
    (conversation_history (main E inputs st).2) = Ok (Some text).
Proof.
  rewrite !get_file_content_from_history_run. intros [= Hs]. f_equal.
  revert Hs.
  apply (keeps_main
           (λ h, first_snapshot (file_marker_of (fs_key E (Path path))) h
                 = Some text)).
  - intros h extra _. apply first_snapshot_app.
  - intros first rest u. by rewrite first_snapshot_cleaned.
Qed.

(** *** What the model is shown of the conversation *)

Lemma filter_user_or_assistant_system (l : list Message) :
  Forall (λ m, is_system m = true) l →
  List.filter is_user_or_assistant l = [].
Proof.
  intros Hl. apply filter_none. eapply Forall_impl; [exact Hl|].
  intros m Hm. destruct (is_user_or_assistant m) eqn:Hu; [|done].
  apply user_or_assistant_not_system in Hu. congruence.
Qed.

Lemma one_turn_app (h extra : list Message) :
  Forall (λ m, is_system m = true) extra →
  length (List.filter is_user_or_assistant (tail h)) ≤ 1 →
  length (List.filter is_user_or_assistant (tail (h ++ extra))) ≤ 1.
Proof.
  intros Hextra Hh. destruct h as [|first rest].
  - cbn [app]. rewrite filter_user_or_assistant_system; [cbn; lia|].
    destruct extra; [done|]. by inversion Hextra.
  - cbn [app tail] in *.
    rewrite List.filter_app, (filter_user_or_assistant_system extra) by done.
    by rewrite app_nil_r.
Qed.

(** With at most one user or assistant message after the first, the
    cleaning keeps the first message and the file snapshots, and adds the
    new user message: an odd message out is dropped. *)
Lemma cleaned_history_one_turn first rest user_message :
  length (List.filter is_user_or_assistant rest) ≤ 1 →
  cleaned_history first rest user_message
  = first :: List.filter is_file_snapshot rest
    ++ [{| role := "user"; content := user_message |}].
Proof.
  intros Hone. unfold cleaned_history. cbn zeta.
  assert (Hpairs : List.filter
                     (λ msg, negb (is_file_snapshot msg)
                             && is_user_or_assistant msg) rest
                   = List.filter is_user_or_assistant rest).
  { apply filter_ext_in. intros m _.
    destruct (is_user_or_assistant m) eqn:Hu; [|by rewrite andb_false_r].
    unfold is_file_snapshot.
    by rewrite (user_or_assistant_not_system m Hu). }
  rewrite Hpairs.
  set (pairs := List.filter is_user_or_assistant rest) in *.
  assert (Hkept : (if Nat.odd (length pairs) then removelast pairs
                   else pairs) = []).
  { destruct pairs as [|x [|y pairs]]; [done | done | cbn in Hone; lia]. }
  rewrite Hkept. reflexivity.
Qed.

Lemma file_snapshots_are_system (l : list Message) :
  Forall (λ m, is_file_snapshot m = true) l →
  Forall (λ m, is_system m = true) l.
Proof.
  intros Hl. eapply Forall_impl; [exact Hl|]. intros m Hm.
  unfold is_file_snapshot in Hm. by apply andb_true_iff in Hm as [? _].
Qed.

Lemma one_turn_cleaned first rest user_message :
  length (List.filter is_user_or_assistant rest) ≤ 1 →
  List.filter is_user_or_assistant
    (tail (cleaned_history first rest user_message))
  = [{| role := "user"; content := user_message |}].
Proof.
  intros Hone. rewrite cleaned_history_one_turn by done. cbn [tail].
  rewrite List.filter_app, filter_user_or_assistant_system; [done|].
  apply file_snapshots_are_system, Forall_filter_true.
Qed.

Lemma snapshot_message_is_file_snapshot key text :
  is_file_snapshot (snapshot_message key text) = true.
Proof.
  unfold is_file_snapshot. apply andb_true_iff. split; [done|].
  apply contains_true. exists [], (key ++ "':" ++ NL ++ NL ++ text).
  reflexivity.
Qed.

(** X9.  The program records no answer of the model and keeps no earlier
    question.  From a history with at most one user or assistant message
    after its first message, as the initial one, every session leaves such
    a history; and the next generation request is made of the first
    message, the file snapshots of the history in their order, the current
    input as a user message, and the snapshots added for the files that
    the input names: nothing else of the conversation is sent. *)
Theorem each_request_carries_one_user_message
    (inputs : list str) (user_message : str) (st : State) :
  length (List.filter is_user_or_assistant (tail (conversation_history st)))
    ≤ 1 →
  let st1 := (main E inputs st).2 in
  length (List.filter is_user_or_assistant (tail (conversation_history st1)))
    ≤ 1
  ∧ ∀ first rest,
      conversation_history st1 = first :: rest →
      ∃ added,
        let messages :=
          first :: List.filter is_file_snapshot rest
          ++ {| role := "user"; content := user_message |} :: added in
        stream_openai_response E user_message st1
        = (Ok (response_of_stream E
                 (generation_stream E (trace st1) messages)),
           {| conversation_history := messages;
              disk := disk st1;
              trace := trace st1 ++ [EvGenerate] |})
        ∧ Forall (λ m, is_file_snapshot m = true) added.
Proof.
  intros Hst st1.
  assert (H1 : length (List.filter is_user_or_assistant
                         (tail (conversation_history st1))) ≤ 1).
  { revert Hst.
    apply (keeps_main
             (λ h, length (List.filter is_user_or_assistant (tail h)) ≤ 1)).
    - intros h extra. apply one_turn_app.
    - intros first rest u Hh. cbn [tail] in Hh.
      by rewrite one_turn_cleaned. }
  split; [exact H1|]. intros first rest Hh.
  rewrite Hh in H1. cbn [tail] in H1.
  destruct (stream_openai_response_eq user_message st1 first rest Hh)
    as (extra & Hrun & Hextra).
  exists extra. cbn zeta. split.
  - rewrite Hrun, cleaned_history_one_turn by done.
    cbn [app]. by rewrite <- !app_assoc.
  - apply Forall_forall. intros m Hm.
    destruct (Hextra m Hm) as (key & text & -> & _).
    apply snapshot_message_is_file_snapshot.
Qed.

(** *** [trim_conversation_history] *)

(** X10.  [trim_conversation_history] never raises and touches the
    history only.  It keeps every system message, in order, and of the
    other messages the last twenty, in order, after the system messages;
    trimming again changes nothing; and no lookup of a file snapshot
    changes its answer. *)
Theorem trim_keeps_system_messages_and_twenty_others (st : State) :
  let others h := List.filter (λ msg, negb (is_system msg)) h in
  ∃ history',
    trim_conversation_history st
    = (Ok tt, {| conversation_history := history';
                 disk := disk st; trace := trace st |})
    ∧ List.filter is_system history'
      = List.filter is_system (conversation_history st)
    ∧ others history'
      = drop (length (others (conversation_history st)) - 20)
             (others (conversation_history st))
    ∧ length (others history') ≤ 20
    ∧ history' = List.filter is_system history' ++ others history'
    ∧ trim_conversation_history
        {| conversation_history := history';
           disk := disk st; trace := trace st |}
      = (Ok tt, {| conversation_history := history';
                   disk := disk st; trace := trace st |})
    ∧ ∀ path,
        get_file_content_from_history E path history'
        = get_file_content_from_history E path (conversation_history st).
Proof.
  intros others.
  set (sys := List.filter is_system (conversation_history st)).
  set (oth := others (conversation_history st)).
  set (kept := drop (length oth - 20) oth).
  assert (Hrun : ∀ h d t,
            trim_conversation_history
              {| conversation_history := h; disk := d; trace := t |}
            = (Ok tt,
               {| conversation_history :=
                    List.filter is_system h
                    ++ drop (length (others h) - 20) (others h);
                  disk := d; trace := t |})).
  { intros h d t. unfold trim_conversation_history. monad_unfold.
    cbn [conversation_history disk trace]. cbn zeta. fold (others h).
    change (10 * 2) with 20.
    destruct (20 <? length (others h)) eqn:Hlen; [done|].
    apply Nat.ltb_ge in Hlen.
    by replace (length (others h) - 20) with 0 by lia. }
  assert (Hsys : Forall (λ m, is_system m = true) sys)
    by apply Forall_filter_true.
  assert (Hoth : Forall (λ m, negb (is_system m) = true) oth)
    by apply (Forall_filter_true (λ m, negb (is_system m))).
  assert (Hkept : Forall (λ m, negb (is_system m) = true) kept).
  { by apply Forall_drop. }
  assert (Hs' : List.filter is_system (sys ++ kept) = sys).
  { rewrite List.filter_app, filter_all by done.
    rewrite filter_none, app_nil_r; [done|].
    eapply Forall_impl; [exact Hkept|]. intros m. apply negb_true_iff. }
  assert (Ho' : others (sys ++ kept) = kept).
  { unfold others. rewrite List.filter_app, filter_none; [|].
    - by rewrite filter_all.
    - eapply Forall_impl; [exact Hsys|]. by intros m ->. }
  assert (Hlen : length kept ≤ 20).
  { unfold kept. rewrite length_drop. lia. }
  exists (sys ++ kept).
  split; [destruct st; apply Hrun|].
  split; [exact Hs'|]. split; [exact Ho'|].
  split; [by rewrite Ho'|]. split; [by rewrite Hs', Ho'|].
  split.
  - rewrite Hrun, Hs', Ho'.
    by replace (length kept - 20) with 0 by lia.
  - intros path. rewrite !get_file_content_from_history_run. f_equal.
    rewrite first_snapshot_app_others.
    + apply first_snapshot_filter. unfold is_snapshot_of.
      by intros m [? _]%andb_true_iff.
    + eapply Forall_impl; [exact Hkept|]. intros m Hm.
      by apply not_system_not_snapshot, negb_true_iff.
Qed.

(** *** [generate_plan] *)



(** *** [generate_review] *)



(** X13.  [generate_review] returns the verdict CORRECT only when both
    checks passed: [validate_edits] found no issue, so that every edit has
    its snippet counted once in the snapshot of its file, and the review
    model was asked once and its answer parsed into that very verdict. *)
Theorem correct_verdict_needs_both_checks
    (response_data verdict : AssistantResponse) (st st' : State) :
  generate_review E response_data st = (Ok verdict, st') →
  output verdict = Some ("CORRECT" : str) →
  validate_edits E response_data (conversation_history st) = Ok None
  ∧ (∀ edit, edit ∈ items (files_to_edit response_data) →
       edit_issue E (conversation_history st) edit = Ok None)
  ∧ ∃ request chunks parsed,
      build_review_request E response_data (conversation_history st)
        = Ok request
      ∧ review_stream E (trace st) request = Ok chunks
      ∧ json_loads E (review_content_of chunks) = Parsed parsed
      ∧ review_of_json E parsed = Ok verdict
      ∧ st' = logged st [EvRemoteReview; EvVerdict (Some ("CORRECT" : str))].
Proof.
  intros Hrun Hout.
  destruct (validate_edits_run E response_data (conversation_history st))
    as (issues & Hc & Hv).
  destruct issues as [|i issues].
  - split; [exact Hv|]. split.
    { intros edit Hin.
      destruct (collect_issues_total E (conversation_history st)
                  (items (files_to_edit response_data)))
        as (issues & Hc' & Hiff).
      rewrite Hc in Hc'. injection Hc' as <-.
      destruct (edit_issue_total E (conversation_history st) edit)
        as [[issue|] Hi]; [|done].
      assert (issue ∈ []) as Habs%elem_of_nil by (apply Hiff; eauto).
      done. }
    revert Hrun. unfold generate_review, review_remotely. monad_unfold.
    cbn [conversation_history disk trace]. rewrite Hv.
    destruct (build_review_request _ _) as [request|e] eqn:Hb.
    + cbn [conversation_history disk trace].
      destruct (review_stream E (trace st) request) as [chunks|e] eqn:Hs.
      * destruct (json_loads E (review_content_of chunks)) as [msg|parsed]
          eqn:Hj.
        -- intros [= <- <-]. discriminate Hout.
        -- destruct (review_of_json E parsed) as [review_result|e] eqn:Hr.
           ++ destruct (valid_output (output review_result)) eqn:Hvalid.
              ** intros [= <- <-]. exists request, chunks, parsed.
                 repeat (split; [done|]).
                 unfold logged. cbn. by rewrite Hout, <- app_assoc.
              ** intros [= <- <-]. discriminate Hout.
           ++ intros [= <- <-]. discriminate Hout.
      * intros [= <- <-]. discriminate Hout.
    + intros [= <- <-]. discriminate Hout.
  - rewrite (generate_review_local E response_data st (i :: issues)) in Hrun
      by done.
    injection Hrun as <- <-. discriminate Hout.
Qed.

(** *** The commit *)







(** *** [guess_files_in_message] *)


(** *** The technical stack documentation *)

Lemma tech_stack_header_holds_no_marker (text : str) :
  contains "Content of file '/" text = false →
  contains "Content of file '/"
    ("Content of file 'tech_stack.md':" ++ NL ++ NL ++ text) = false.
Proof.
  unfold contains. intros Hno.
  destruct (find "Content of file '/" text) as [[pre post]|] eqn:Hf; [done|].
  cbn in Hf |- *. by rewrite Hf.
Qed.

Lemma marker_starts_with_slash key_tail rest c :
  contains (file_marker_of ("/" ++ key_tail) ++ rest) c = true →
  contains "Content of file '/" c = true.
Proof.
  unfold file_marker_of.
  change (("Content of file '" ++ ("/" ++ key_tail) ++ "'") ++ rest)
    with ("Content of file '/" ++ (key_tail ++ "'") ++ rest)%list.
  apply contains_app_l.
Qed.

(** X17.  The snapshot of the technical stack documentation that is
    recorded at start-up names the file by its relative path, while every
    lookup looks for a normalized, absolute one: unless the text of the
    file itself holds the start of such a marker, the message answers no
    lookup, for no path. *)
Theorem tech_stack_snapshot_answers_no_lookup (st : State) (text : str) :
  files (disk st) !! fs_key E (Path "tech_stack.md") = Some text →
  contains "Content of file '/" text = false →
  load_tech_stack E st
  = (Ok tt,
     extended st [system_message ("Content of file 'tech_stack.md':"
                                  ++ NL ++ NL ++ text)])
  ∧ ∀ path,
      get_file_content_from_history E path
        (conversation_history (load_tech_stack E st).2)
      = get_file_content_from_history E path (conversation_history st).
Proof.
  intros Hfile Hplain.
  assert (Hrun : load_tech_stack E st
                 = (Ok tt,
                    extended st
                      [system_message ("Content of file 'tech_stack.md':"
                                       ++ NL ++ NL ++ text)])).
  { unfold load_tech_stack, read_local_file. monad_unfold.
    by rewrite Hfile. }
  split; [exact Hrun|]. intros path. rewrite Hrun.
  cbn [snd extended conversation_history].
  rewrite !get_file_content_from_history_run. f_equal.
  apply first_snapshot_app_others. constructor; [|done].
  unfold is_snapshot_of. apply andb_false_iff. right.
  match goal with |- ?c = false => destruct c eqn:Hc; [|done] end.
  rewrite fs_key_canonical in Hc.
  apply marker_starts_with_slash in Hc.
  cbn [content system_message] in Hc.
  by rewrite tech_stack_header_holds_no_marker in Hc.
Qed.

(** *** Events of a session *)

Lemma licensed_app v a b :
  licensed v (a ++ b) = licensed v a && licensed (verdict_after v a) b.
Proof.
  revert v; induction a as [|ev a IH]; intros v; [done|].
  destruct ev; cbn [app licensed verdict_after]; try apply IH.
  by rewrite IH, andb_assoc.
Qed.

Lemma verdict_after_app v a b :
  verdict_after v (a ++ b) = verdict_after (verdict_after v a) b.
Proof.
  revert v; induction a as [|ev a IH]; intros v; [done|].
  destruct ev; cbn [app verdict_after]; apply IH.
Qed.

Lemma licensed_weaken v t : licensed None t = true → licensed v t = true.
Proof.
  induction t as [|ev t IH]; [done|].
  destruct ev; cbn [licensed]; done.
Qed.

Lemma licensed_None_app a b :
  licensed None a = true → licensed None b = true →
  licensed None (a ++ b) = true.
Proof.
  intros Ha Hb. rewrite licensed_app, Ha. by apply licensed_weaken.
Qed.

Lemma licensed_no_writes v t : writes t = [] → licensed v t = true.
Proof.
  revert v; induction t as [|ev t IH]; intros v Hw; [done|].
  destruct ev; cbn [licensed]; try (by apply IH). discriminate Hw.
Qed.

Lemma licensed_writes t :
  forallb is_write t = true → licensed (Some ("CORRECT" : str)) t = true.
Proof.
  induction t as [|ev t IH]; [done|].
  destruct ev; cbn [forallb is_write andb licensed]; try done.
Qed.

Lemma verdict_after_quiet v t :
  verdicts t = [] → generations t = 0 → verdict_after v t = v.
Proof.
  induction t as [|ev t IH]; [done|].
  destruct ev; cbn; try done; apply IH.
Qed.

Lemma verdict_after_review v evs o :
  review_events evs o → verdict_after v evs = o.
Proof.
  intros (Hv & Hg & _). revert v Hv Hg.
  induction evs as [|ev evs IH]; intros v Hv Hg; [done|].
  destruct ev; cbn [verdict_after].
  - discriminate Hg.
  - by apply IH.
  - by apply IH.
  - injection Hv as -> Hv. by apply verdict_after_quiet.
  - by apply IH.
Qed.

Section Adds.
Context (Q : list Event → Prop).
Hypothesis Q_nil : Q [].
Hypothesis Q_app : ∀ a b, Q a → Q b → Q (a ++ b).

Lemma adds_ret {A} (a : A) : adds Q (ret a).
Proof. intros st. exists []. by rewrite app_nil_r. Qed.

Lemma adds_bind {A B} (c : M A) (k : A → M B) :
  adds Q c → (∀ a, adds Q (k a)) → adds Q (bind c k).
Proof.
  intros Hc Hk st. unfold bind. destruct (Hc st) as (d1 & Ht1 & Hq1).
  destruct (c st) as [[a|e] st1]; cbn [snd] in *.
  - destruct (Hk a st1) as (d2 & Ht2 & Hq2).
    exists (d1 ++ d2). split; [by rewrite Ht2, Ht1, app_assoc | by apply Q_app].
  - by exists d1.
Qed.

Lemma adds_for_each {A} (l : list A) (body : A → M unit) :
  (∀ x, adds Q (body x)) → adds Q (for_each l body).
Proof.
  intros Hb. induction l as [|x l IH]; [apply adds_ret|].
  cbn [for_each]. apply adds_bind; [apply Hb | by intros _].
Qed.

End Adds.

Lemma forallb_is_write_app a b :
  forallb is_write a = true → forallb is_write b = true →
  forallb is_write (a ++ b) = true.
Proof. intros Ha Hb. by rewrite forallb_app, Ha, Hb. Qed.

(** The commit adds nothing but writes to the trace. *)
Lemma apply_changes_only_writes response_data :
  adds (λ delta, forallb is_write delta = true)
       (apply_changes E response_data).
Proof.
  unfold apply_changes.
  apply (adds_bind (λ delta, forallb is_write delta = true)
            forallb_is_write_app).
  - apply (adds_for_each (λ delta, forallb is_write delta = true)
              eq_refl forallb_is_write_app).
    intros file st. rewrite create_file_run.
    destruct (existsb _ _); [exists []; by rewrite app_nil_r|].
    destruct (5000000 <? _)%N; [exists []; by rewrite app_nil_r|].
    by eexists [_].
  - intros _. apply (adds_for_each (λ delta, forallb is_write delta = true)
              eq_refl forallb_is_write_app).
    intros edit st. rewrite apply_diff_edit_run.
    destruct (edit_applies _ _ _ _ _); [|exists []; by rewrite app_nil_r].
    destruct (files (disk st) !! _); [|exists []; by rewrite app_nil_r].
    by eexists [_].
Qed.

(** The retry loop writes nothing, and the verdict in force when it ends
    is the one it returns. *)
Lemma review_retry_verdict remaining user_input attempt response_data
    review_response st :
  conversation_history st ≠ [] →
  ∃ response_data' review_response' attempt' st' delta,
    review_retry E remaining user_input attempt response_data
                 review_response st
    = (Ok (response_data', review_response', attempt'), st')
    ∧ trace st' = trace st ++ delta
    ∧ writes delta = []
    ∧ verdict_after (output review_response) delta
      = output review_response'.
Proof.
  revert attempt response_data review_response st.
  induction remaining as [|r IH];
    intros attempt response_data review_response st Hne.
  - exists response_data, review_response, attempt, st, [].
    cbn. by rewrite app_nil_r.
  - cbn [review_retry].
    destruct (needs_changes review_response) eqn:Hnc.
    + unfold bind at 1. unfold append_history at 1.
      set (st1 := {| conversation_history := _; disk := _; trace := _ |}).
      assert (Hne1 : conversation_history st1 ≠ []).
      { unfold st1. cbn. by destruct (conversation_history st). }
      destruct (stream_openai_response_run E user_input st1 Hne1)
        as (rd1 & h1 & Hs & Hh1).
      unfold bind at 1. rewrite Hs.
      set (st2 := {| conversation_history := h1; disk := _; trace := _ |}).
      destruct (generate_review_run E rd1 st2) as (rv1 & evs & Hg & Hev).
      unfold bind at 1. rewrite Hg.
      destruct (IH (S attempt) rd1 rv1 (logged st2 evs) Hh1)
        as (rd' & rv' & attempt' & st' & delta & Hrun & Htrace & Hw & Hva).
      exists rd', rv', attempt', st', ([EvGenerate] ++ evs ++ delta).
      rewrite Hrun. split; [done|]. split.
      { rewrite Htrace. unfold logged, st2, st1. cbn.
        by rewrite <- !app_assoc. }
      pose proof Hev as (Hv & Hg0 & Hw0 & Hrest).
      split.
      { rewrite !writes_app, Hw, Hw0. done. }
      cbn [app verdict_after]. rewrite verdict_after_app.
      by rewrite (verdict_after_review None evs (output rv1)).
    + exists response_data, review_response, attempt, st, [].
      cbn. by rewrite app_nil_r.
Qed.

Lemma process_turn_licensed user_input :
  adds (λ delta, licensed None delta = true) (process_turn E user_input).
Proof.
  intros st. unfold process_turn.
  destruct (conversation_history st) as [|first rest] eqn:Hh.
  - unfold bind at 1. rewrite review_phase_empty_history by done.
    exists []. by rewrite app_nil_r.
  - assert (Hne : conversation_history st ≠ []) by by rewrite Hh.
    unfold bind at 1. unfold review_phase.
    destruct (stream_openai_response_run E user_input st Hne)
      as (rd1 & h1 & Hs & Hh1).
    unfold bind at 1. rewrite Hs.
    set (st2 := {| conversation_history := h1; disk := _; trace := _ |}).
    destruct (generate_review_run E rd1 st2) as (rv1 & evs & Hg & Hev).
    unfold bind at 1. rewrite Hg.
    destruct (review_retry_verdict (max_attempts - 1) user_input 1 rd1 rv1
                (logged st2 evs) Hh1)
      as (rd' & rv' & attempt' & st' & delta & Hrun & Htrace & Hw & Hva).
    rewrite Hrun.
    assert (Ht : trace st' = trace st ++ [EvGenerate] ++ evs ++ delta).
    { rewrite Htrace. unfold logged, st2. cbn. by rewrite <- !app_assoc. }
    assert (Hlic : licensed None ([EvGenerate] ++ evs ++ delta) = true).
    { apply licensed_no_writes.
      pose proof Hev as (_ & _ & Hw0 & _).
      by rewrite !writes_app, Hw, Hw0. }
    assert (Hafter : verdict_after None ([EvGenerate] ++ evs ++ delta)
                     = output rv').
    { cbn [app verdict_after]. rewrite verdict_after_app.
      by rewrite (verdict_after_review None evs (output rv1)). }
    destruct (is_correct rv') eqn:Hcorrect.
    + destruct (apply_changes_only_writes rd' st') as (committed & Hc & Hwr).
      exists (([EvGenerate] ++ evs ++ delta) ++ committed).
      split; [by rewrite Hc, Ht, <- !app_assoc|].
      rewrite licensed_app, Hlic, Hafter.
      apply bool_decide_eq_true in Hcorrect. rewrite Hcorrect.
      by apply licensed_writes.
    + exists ([EvGenerate] ++ evs ++ delta). by split.
Qed.

Lemma main_loop_licensed inputs :
  adds (λ delta, licensed None delta = true) (main_loop E inputs).
Proof.
  induction inputs as [|line inputs IH].
  - by apply (adds_ret (λ delta, licensed None delta = true) eq_refl).
  - cbn [main_loop]. cbn zeta.
    destruct (bool_decide (strip line = [])); [done|].
    destruct (bool_decide (lower (strip line) ∈ _));
      [by apply (adds_ret (λ delta, licensed None delta = true) eq_refl)|].
    apply (adds_bind (λ delta, licensed None delta = true)
             licensed_None_app).
    + intros st.
      destruct (try_handle_add_command_run (strip line) st)
        as (extra & -> & _).
      exists []. by rewrite app_nil_r.
    + intros [|]; [done|].
      apply (adds_bind (λ delta, licensed None delta = true)
             licensed_None_app).
      * apply process_turn_licensed.
      * by intros _.
Qed.

(** X18.  In a whole session, whatever the inputs and whether it ends or
    raises, every write of a file comes under a verdict CORRECT: reading
    the events in order, the last review before a write returned CORRECT
    and no generation request was sent between that review and the
    write. *)
Theorem session_writes_only_under_a_correct_verdict
    (inputs : list str) (st : State) :
  ∃ delta,
    trace (main E inputs st).2 = trace st ++ delta
    ∧ licensed None delta = true.
Proof.
  revert st. change (adds (λ delta, licensed None delta = true) (main E inputs)).
  unfold main. apply (adds_bind (λ delta, licensed None delta = true)
             licensed_None_app).
  - intros st. unfold load_tech_stack, read_local_file. monad_unfold.
    exists []. rewrite app_nil_r. by destruct (files (disk st) !! _).
  - intros _. apply main_loop_licensed.
Qed.

(** *** What a session can raise *)

Section FailsOnly.
Context (R : exn → Prop).




End FailsOnly.




(** *** What a session asks of the two models *)




End Further.

(** ** Instances *)


(** Of the six files of the project the source file and the text file of
    the plain directory are added. *)
Example project_files_added :
  map content
    (conversation_history
       (add_directory_to_conversation plain_env "/w/proj" project_state).2)
  = [("You are an elite software engineer" : str);
     "Content of file '/w/proj/a.py':" ++ NL ++ NL ++ "print(1)";
     "Content of file '/w/proj/sub/b.txt':" ++ NL ++ NL ++ "hello"].
Proof. vm_compute. reflexivity. Qed.

(** [Path(name).suffix] on some names. *)
Example suffix_of_names :
  suffix "img.PNG" = (".PNG" : str) ∧ suffix "a.tar.gz" = (".gz" : str)
  ∧ suffix ".bashrc" = [] ∧ suffix "notes." = [] ∧ suffix "Makefile" = [].
Proof. repeat split; reflexivity. Qed.

(** X6 at work: the note of an applied edit. *)
Lemma generation_forgets_plain_system_messages_witness :
  stream_openai_response plain_env "fix it" (extended a_txt_state [edit_note])
  = stream_openai_response plain_env "fix it" a_txt_state.
Proof.
  apply generation_forgets_plain_system_messages.
  - discriminate.
  - reflexivity.
  - vm_compute. reflexivity.
Defined.

(** X7 at work: the feedback of a verdict made up by [validate_edits]. *)
Lemma retry_feedback_never_reaches_the_model_witness :
  let review_response :=
    local_verdict ["File 'b.txt' not found in context." : str] in
  review_retry plain_env 2 "fix it" 1 (edits_only [unknown_file_edit])
               review_response a_txt_state
  = (let* response_data := stream_openai_response plain_env "fix it" in
     let* review_response := generate_review plain_env response_data in
     review_retry plain_env 1 "fix it" 2 response_data review_response)
      a_txt_state.
Proof.
  apply retry_feedback_never_reaches_the_model.
  - discriminate.
  - reflexivity.
  - vm_compute. reflexivity.
Defined.

(** X13 at work: an edit of [a.txt] that the review model accepts. *)
Lemma correct_verdict_needs_both_checks_witness :
  let E := scenario_env (edits_only [foo_edit]) "CORRECT" in
  let response_data := edits_only [foo_edit] in
  validate_edits E response_data (conversation_history a_txt_state) = Ok None
  ∧ (∀ edit, edit ∈ items (files_to_edit response_data) →
       edit_issue E (conversation_history a_txt_state) edit = Ok None)
  ∧ ∃ request chunks parsed,
      build_review_request E response_data (conversation_history a_txt_state)
        = Ok request
      ∧ review_stream E (trace a_txt_state) request = Ok chunks
      ∧ json_loads E (review_content_of chunks) = Parsed parsed
      ∧ review_of_json E parsed = Ok (scripted_verdict "CORRECT")
      ∧ logged a_txt_state
          [EvRemoteReview; EvVerdict (Some ("CORRECT" : str))]
        = logged a_txt_state
            [EvRemoteReview; EvVerdict (Some ("CORRECT" : str))].
Proof.
  apply (correct_verdict_needs_both_checks
           (scenario_env (edits_only [foo_edit]) "CORRECT")
           (edits_only [foo_edit]) (scripted_verdict "CORRECT") a_txt_state
           (logged a_txt_state
              [EvRemoteReview; EvVerdict (Some ("CORRECT" : str))])).
  - vm_compute. reflexivity.
  - reflexivity.
Defined.


(** The file before the refused one is on disk, the one after it is not,
    and the edit was not applied. *)
Example refused_new_file_leaves_the_rest_undone :
  let st := (apply_changes plain_env three_new_files a_txt_state).2 in
  files (disk st) !! ("/w/ok.txt" : str) = Some ("fine" : str)
  ∧ files (disk st) !! ("/w/later.txt" : str) = None
  ∧ files (disk st) !! ("/w/a.txt" : str) = Some ("foo bar" : str).
Proof. repeat split; vm_compute; reflexivity. Qed.


(** X17 at work: a documentation of one line. *)
Lemma tech_stack_snapshot_answers_no_lookup_witness :
  load_tech_stack plain_env tech_stack_state
  = (Ok tt,
     extended tech_stack_state
       [system_message ("Content of file 'tech_stack.md':"
                        ++ NL ++ NL ++ "Python 3.12")])
  ∧ ∀ path,
      get_file_content_from_history plain_env path
        (conversation_history (load_tech_stack plain_env tech_stack_state).2)
      = get_file_content_from_history plain_env path
          (conversation_history tech_stack_state).
Proof.
  apply (tech_stack_snapshot_answers_no_lookup plain_env tech_stack_state
           "Python 3.12"); reflexivity.
Defined.

(** So an edit of the documentation loaded at start-up is rejected as
    not found in context. *)
Example tech_stack_edit_is_not_found_in_context :
  edit_issue plain_env
    (conversation_history (load_tech_stack plain_env tech_stack_state).2)
    {| edit_path := "tech_stack.md"; original_snippet := "3.12";
       new_snippet := "3.13" |}
  = Ok (Some ("File 'tech_stack.md' not found in context." : str)).
Proof. vm_compute. reflexivity. Qed.

(** X8 at work: the file is added again and then edited; the disk has the
    new text and the lookup the old one. *)
Lemma snapshot_once_recorded_is_never_replaced_witness :
  let E := scenario_env (edits_only [foo_edit]) "CORRECT" in
  let st := (main E ["/add a.txt" : str; "rename foo" : str] a_txt_state).2 in
  files (disk st) !! ("/w/a.txt" : str) = Some ("baz bar" : str)
  ∧ get_file_content_from_history E "a.txt" (conversation_history st)
    = Ok (Some ("foo bar" : str)).
Proof.
  split; [vm_compute; reflexivity|].
  apply (snapshot_once_recorded_is_never_replaced
           (scenario_env (edits_only [foo_edit]) "CORRECT")
           ["/add a.txt" : str; "rename foo" : str] a_txt_state
           "a.txt" "foo bar").
  reflexivity.
Defined.


(** X9 at work: after two turns. *)
Lemma each_request_carries_one_user_message_witness :
  let st1 := (main plain_env ["hello" : str; "again" : str] a_txt_state).2 in
  length (List.filter is_user_or_assistant (tail (conversation_history st1)))
    ≤ 1
  ∧ ∀ first rest,
      conversation_history st1 = first :: rest →
      ∃ added,
        let messages :=
          first :: List.filter is_file_snapshot rest
          ++ {| role := "user"; content := "once more" |} :: added in
        stream_openai_response plain_env "once more" st1
        = (Ok (response_of_stream plain_env
                 (generation_stream plain_env (trace st1) messages)),
           {| conversation_history := messages;
              disk := disk st1;
              trace := trace st1 ++ [EvGenerate] |})
        ∧ Forall (λ m, is_file_snapshot m = true) added.
Proof.
  apply (each_request_carries_one_user_message plain_env
           ["hello" : str; "again" : str] "once more" a_txt_state).
  vm_compute. repeat constructor.
Defined.
